(** * absent.py: which camera files are missing from the library

    A shallow embedding of [survey_library], [locate] and [main] of
    [src/absent.py], together with the operating-system and [filecmp]
    primitives they call.  The program is effectful (it stats, compares
    and removes files, and prints), so every function is written in a
    small state-and-exception monad over a [world]: the file system, the
    memo table of [filecmp], and the log of the calls made so far. *)

From Stdlib Require Import ZArith Lia Ascii String.
From stdpp Require Import base option list gmap strings pretty.

Open Scope string_scope.
Open Scope list_scope.
Open Scope Z_scope.

(** ** Python strings used as paths *)

Module PyStr.

Definition slash : ascii := "/"%char.
Definition backslash : ascii := "\"%char.

(** [s.replace('\\', '/')] *)
Fixpoint replace_backslash (s : string) : string :=
  match s with
  | EmptyString => EmptyString
  | String c s' =>
      String (if Ascii.eqb c backslash then slash else c) (replace_backslash s')
  end.

Definition startswith_sep (s : string) : bool :=
  match s with
  | String c _ => Ascii.eqb c slash
  | EmptyString => false
  end.

Fixpoint endswith_sep (s : string) : bool :=
  match s with
  | EmptyString => false
  | String c EmptyString => Ascii.eqb c slash
  | String _ s' => endswith_sep s'
  end.

(** [os.path.join(a, b)] with two components, as [posixpath.join]
    computes it. *)
Definition join (a b : string) : string :=
  if startswith_sep b then b
  else if (String.eqb a "" || endswith_sep a)%bool then a +:+ b
  else a +:+ "/" +:+ b.

(** The order [sorted] uses on [str]: lexicographic on code points. *)
Fixpoint insert_sorted (x : string) (l : list string) : list string :=
  match l with
  | [] => [x]
  | y :: l' => if String.leb x y then x :: l else y :: insert_sorted x l'
  end.

Definition sorted (l : list string) : list string :=
  foldr insert_sorted [] l.

(** Truth value of a [str]. *)
Definition truthy (s : string) : bool := negb (String.eqb s "").

End PyStr.

(** ** Exceptions *)

Inductive exn : Type :=
  | FileNotFoundError (filename : string)
  | PermissionError (filename : string).

Inductive exn_class : Type :=
  | cFileNotFoundError | cPermissionError | cOSError | cException.

(** [IOError] is an alias of [OSError]; both errors above derive from it. *)
Definition cIOError : exn_class := cOSError.

Definition isinstance (e : exn) (c : exn_class) : bool :=
  match c, e with
  | cFileNotFoundError, FileNotFoundError _ => true
  | cFileNotFoundError, _ => false
  | cPermissionError, PermissionError _ => true
  | cPermissionError, _ => false
  | cOSError, _ => true
  | cException, _ => true
  end.

#[global] Instance exn_eq_dec : EqDecision exn.
Proof. solve_decision. Defined.

(** ** The world *)

(** A directory entry as the program can observe it: the mode bits, the
    modification time (a timestamp, compared for equality only), the
    bytes, and whether the process may stat, open or unlink it.  The
    size [os.stat] reports is the number of bytes. *)
Record file : Type := File {
  f_mode : Z;
  f_mtime : Z;
  f_data : string;
  f_statable : bool;
  f_readable : bool;
  f_removable : bool
}.

Record stat_result : Type := StatResult {
  st_mode : Z;
  st_size : Z;
  st_mtime : Z
}.

(** The signature [filecmp._sig] builds: (type, size, mtime). *)
Definition sig : Type := Z * Z * Z.

(** Arguments handed to [print]. *)
Inductive pyval : Type :=
  | PStr (s : string)
  | PInt (n : Z)
  | PExn (e : exn).

(** The calls the program makes on its environment, in program order. *)
Inductive event : Type :=
  | EvWalk (top : string)
  | EvStat (p : string)
  | EvCmp (f1 f2 : string) (shallow : bool)
  | EvRemove (p : string)
  | EvPrint (args : list pyval).

#[global] Instance pyval_eq_dec : EqDecision pyval.
Proof. solve_decision. Defined.
#[global] Instance event_eq_dec : EqDecision event.
Proof. solve_decision. Defined.

Record world : Type := World {
  fs : gmap string file;
  (** what [os.walk top] yields: the (dirpath, filenames) pairs in
      traversal order; a top that is not a directory yields nothing *)
  tree : gmap string (list (string * list string));
  (** [filecmp._cache] *)
  cache : gmap (string * string * sig * sig) bool;
  trace : list event
}.

(** ** The monad: state plus exceptions, the state surviving a raise *)

Inductive result (A : Type) : Type :=
  | Ok (a : A)
  | Raise (e : exn).
Arguments Ok {A} a.
Arguments Raise {A} e.

Definition io (A : Type) : Type := world → result A * world.

Definition io_ret {A} (a : A) : io A := λ w, (Ok a, w).

Definition io_bind {A B} (c : io A) (k : A → io B) : io B :=
  λ w, match c w with
       | (Ok a, w') => k a w'
       | (Raise e, w') => (Raise e, w')
       end.

Definition raise {A} (e : exn) : io A := λ w, (Raise e, w).

(** [try: c  except classes: h] *)
Definition try_except {A} (c : io A) (classes : list exn_class)
    (h : exn → io A) : io A :=
  λ w, match c w with
       | (Ok a, w') => (Ok a, w')
       | (Raise e, w') =>
           if existsb (isinstance e) classes then h e w' else (Raise e, w')
       end.

Declare Scope io_scope.
Delimit Scope io_scope with io.
Notation "x <~ c ; k" := (io_bind c (λ x, k))
  (at level 100, c at next level, k at level 200, right associativity,
   format "'[v' x  <~  c ; '/' k ']'") : io_scope.
Notation "c ;; k" := (io_bind c (λ _, k))
  (at level 100, k at level 200, right associativity,
   format "'[v' c ;; '/' k ']'") : io_scope.
Open Scope io_scope.

(** [for x in l: s = body x s] *)
Fixpoint for_in {A S} (l : list A) (body : A → S → io S) (s : S) : io S :=
  match l with
  | [] => io_ret s
  | x :: l' => s' <~ body x s; for_in l' body s'
  end.

Definition log (e : event) : io unit :=
  λ w, (Ok tt, World (fs w) (tree w) (cache w) (trace w ++ [e])).

Definition lift {A} (f : world → result A) : io A := λ w, (f w, w).

(** ** Operating-system primitives *)

Module Os.

Definition stat_fs (m : gmap string file) (p : string) : result stat_result :=
  match m !! p with
  | None => Raise (FileNotFoundError p)
  | Some f =>
      if f_statable f
      then Ok (StatResult (f_mode f) (Z.of_nat (String.length (f_data f))) (f_mtime f))
      else Raise (PermissionError p)
  end.

(** [os.stat(p)] *)
Definition stat (p : string) : io stat_result :=
  log (EvStat p);; lift (λ w, stat_fs (fs w) p).

(** [os.walk(top)], with the default [onerror=None]: errors of the
    directory scan are swallowed by the generator. *)
Definition walk (top : string) : io (list (string * list string)) :=
  log (EvWalk top);; lift (λ w, Ok (default [] (tree w !! top))).

(** [open(p, 'rb').read()] *)
Definition read_fs (m : gmap string file) (p : string) : result string :=
  match m !! p with
  | None => Raise (FileNotFoundError p)
  | Some f =>
      if (f_statable f && f_readable f)%bool then Ok (f_data f)
      else Raise (PermissionError p)
  end.

(** [os.remove(p)] *)
Definition remove (p : string) : io unit :=
  log (EvRemove p);;
  λ w, match fs w !! p with
       | None => (Raise (FileNotFoundError p), w)
       | Some f =>
           if (f_statable f && f_removable f)%bool
           then (Ok tt, World (delete p (fs w)) (tree w) (cache w) (trace w))
           else (Raise (PermissionError p), w)
       end.

(** [print] on a stream that takes every line; [AbsentOut] has
    the program over a stream that can refuse one. *)
Definition print (args : list pyval) : io unit := log (EvPrint args).

End Os.

(** ** [filecmp.cmp], as in the standard library *)

Module Filecmp.

Definition S_IFMT (mode : Z) : Z := Z.land mode 61440.   (* 0o170000 *)
Definition S_IFREG : Z := 32768.                         (* 0o100000 *)

Definition _sig (st : stat_result) : sig :=
  (S_IFMT (st_mode st), st_size st, st_mtime st).

Definition BUFSIZE : nat := (8 * 1024)%nat.

(** [fp.read(n)]: the next chunk of at most [n] bytes, and what is left
    to read. *)
Fixpoint fp_read (n : nat) (s : string) : string * string :=
  match n, s with
  | S n', String c s' => let r := fp_read n' s' in (String c r.1, r.2)
  | _, _ => (EmptyString, s)
  end.

(** The [while True] loop of [_do_cmp] on what is left of the two files;
    [None] when [fuel] iterations were not enough. *)
Fixpoint cmp_chunks (bufsize fuel : nat) (r1 r2 : string) : option bool :=
  match fuel with
  | O => None
  | S fuel' =>
      let c1 := fp_read bufsize r1 in
      let c2 := fp_read bufsize r2 in
      if negb (String.eqb c1.1 c2.1) then Some false
      else if String.eqb c1.1 "" then Some true
      else cmp_chunks bufsize fuel' c1.2 c2.2
  end.

(** [_do_cmp]: both files are opened, the first one first, and compared
    chunk by chunk.  One iteration per chunk of the first file and one
    more for the end of file are enough. *)
Definition do_cmp_fs (m : gmap string file) (f1 f2 : string) : result bool :=
  match Os.read_fs m f1 with
  | Raise e => Raise e
  | Ok b1 =>
      match Os.read_fs m f2 with
      | Raise e => Raise e
      | Ok b2 =>
          match cmp_chunks BUFSIZE (S (String.length b1)) b1 b2 with
          | Some o => Ok o
          | None => Ok false
          end
      end
  end.

Definition _do_cmp (f1 f2 : string) : io bool :=
  lift (λ w, do_cmp_fs (fs w) f1 f2).

Definition cache_get (k : string * string * sig * sig) : io (option bool) :=
  lift (λ w, Ok (cache w !! k)).

Definition cache_len : io nat := lift (λ w, Ok (size (cache w))).

Definition clear_cache : io unit :=
  λ w, (Ok tt, World (fs w) (tree w) ∅ (trace w)).

Definition cache_set (k : string * string * sig * sig) (v : bool) : io unit :=
  λ w, (Ok tt, World (fs w) (tree w) (<[k := v]> (cache w)) (trace w)).

Definition stat_quiet (p : string) : io stat_result :=
  lift (λ w, Os.stat_fs (fs w) p).

Definition cmp (f1 f2 : string) (shallow : bool) : io bool :=
  log (EvCmp f1 f2 shallow);;
  st1 <~ stat_quiet f1;
  st2 <~ stat_quiet f2;
  let s1 := _sig st1 in
  let s2 := _sig st2 in
  if (negb (Z.eqb s1.1.1 S_IFREG) || negb (Z.eqb s2.1.1 S_IFREG))%bool then io_ret false
  else if (shallow && bool_decide (s1 = s2))%bool then io_ret true
  else if negb (Z.eqb s1.1.2 s2.1.2) then io_ret false
  else
    outcome <~ cache_get (f1, f2, s1, s2);
    match outcome with
    | Some o => io_ret o
    | None =>
        o <~ _do_cmp f1 f2;
        n <~ cache_len;
        (if (100 <? n)%nat then clear_cache else io_ret tt);;
        cache_set (f1, f2, s1, s2) o;;
        io_ret o
    end.

End Filecmp.

(** ** absent.py *)

Module Absent.

(** [fpaths = res.setdefault(flen, []); fpaths.append(p)] *)
Definition setdefault_append (res : gmap Z (list string)) (flen : Z)
    (p : string) : gmap Z (list string) :=
  <[flen := default [] (res !! flen) ++ [p]]> res.

(** Body of the innermost loop of [survey_library]. *)
Definition survey_file (dpath : string) (base_fname : string)
    (st : gmap Z (list string) * Z) : io (gmap Z (list string) * Z) :=
  let cnt := st.2 + 1 in
  let base_fpath := PyStr.replace_backslash (PyStr.join dpath base_fname) in
  res <~ try_except
           (st_ <~ Os.stat base_fpath;
            io_ret (setdefault_append st.1 (st_size st_) base_fpath))
           [cFileNotFoundError; cIOError]
           (λ _, Os.print [PStr "Error stat-ing:"; PStr base_fpath];;
                 io_ret st.1);
  io_ret (res, cnt).

Definition survey_dir (entry : string * list string)
    (st : gmap Z (list string) * Z) : io (gmap Z (list string) * Z) :=
  for_in entry.2 (survey_file entry.1) st.

Definition survey_folder (folder : string)
    (st : gmap Z (list string) * Z) : io (gmap Z (list string) * Z) :=
  entries <~ Os.walk folder;
  for_in entries survey_dir st.

(** Number of lengths that more than one file has. *)
Definition count_dups (res : gmap Z (list string)) : Z :=
  map_fold (λ _ fpaths dups, if (1 <? length fpaths)%nat then dups + 1 else dups)
           0 res.

Definition survey_library (folders : list string) : io (gmap Z (list string)) :=
  st <~ for_in folders survey_folder (∅, 0);
  let res := st.1 in
  let cnt := st.2 in
  let dups := count_dups res in
  Os.print [PStr "nFiles:"; PInt cnt];;
  Os.print [PStr "nLengths:"; PInt (Z.of_nat (size res))];;
  Os.print [PStr "Lengths with more than 1 file:"; PInt dups];;
  io_ret res.

(** The loop of [locate] over the bucket. *)
Fixpoint locate_loop (tgt_fpath : string) (fpaths : list string)
    : io (option string) :=
  match fpaths with
  | [] => io_ret None
  | fbase_path :: rest =>
      c1 <~ Filecmp.cmp tgt_fpath fbase_path true;
      if negb c1 then locate_loop tgt_fpath rest
      else
        c2 <~ Filecmp.cmp tgt_fpath fbase_path false;
        if c2 then io_ret (Some fbase_path)
        else locate_loop tgt_fpath rest
  end.

Definition locate (tgt_fpath : string) (survey : gmap Z (list string))
    : io (option string) :=
  st_ <~ Os.stat tgt_fpath;
  let flen := st_size st_ in
  let fpaths := default [] (survey !! flen) in
  match fpaths with
  | [] => io_ret None
  | _ => locate_loop tgt_fpath fpaths
  end.

(** The lists and the counter [main] carries through its scan. *)
Record scan : Type := Scan {
  absent : list string;
  not_needed : list string;
  cnt : Z
}.

Definition found_truthy (found : option string) : bool :=
  match found with
  | Some p => PyStr.truthy p
  | None => false
  end.

Definition scan_file (surveyed : gmap Z (list string)) (i_path fname : string)
    (s : scan) : io scan :=
  let cnt' := cnt s + 1 in
  let fpath := PyStr.replace_backslash (PyStr.join i_path fname) in
  found <~ locate fpath surveyed;
  if found_truthy found then
    Os.print [PStr fpath; PStr "==>"; PStr (default "" found)];;
    io_ret (Scan (absent s) (not_needed s ++ [fpath]) cnt')
  else
    io_ret (Scan (absent s ++ [fpath]) (not_needed s) cnt').

Definition scan_dir (surveyed : gmap Z (list string))
    (entry : string * list string) (s : scan) : io scan :=
  for_in entry.2 (scan_file surveyed entry.1) s.

Definition needed_line (s : scan) : string :=
  pretty (Z.of_nat (length (absent s))) +:+ " needed to import out of "
    +:+ pretty (cnt s) +:+ " total".

Definition delete_file (fpath : string) (_ : unit) : io unit :=
  Os.print [PStr "Deleting:"; PStr fpath];;
  try_except (Os.remove fpath) [cException]
    (λ e, Os.print [PStr "    Error in deletion:"; PStr fpath; PExn e]).

Definition report (s : scan) : io unit :=
  Os.print [PStr (needed_line s)];;
  for_in (PyStr.sorted (absent s))
         (λ fpath _, Os.print [PStr "Missing:"; PStr fpath]) tt;;
  Os.print [PStr (needed_line s)].

Definition resolve_all (camera_folder : string)
    (surveyed : gmap Z (list string)) : io scan :=
  entries <~ Os.walk camera_folder;
  for_in entries (scan_dir surveyed) (Scan [] [] 0).

Definition main (camera_folder : string) (library_folders : list string)
    (rmdups : bool) : io unit :=
  surveyed <~ survey_library library_folders;
  s <~ resolve_all camera_folder surveyed;
  report s;;
  if rmdups then for_in (not_needed s) delete_file tt
  else io_ret tt.

End Absent.

(** ** absent.py when [print] can raise

    [print] writes to a stream, and the stream can refuse a line (a
    closed pipe, a name that its encoding cannot write); the call then
    raises.  The functions of [absent.py] that print are given here once
    more with [print] as a parameter.  With [Os.print] for it they are
    the functions of [Absent]. *)

Module AbsentOut.
Section Stream.
Variable print : list pyval → io unit.

Definition survey_file (dpath : string) (base_fname : string)
    (st : gmap Z (list string) * Z) : io (gmap Z (list string) * Z) :=
  let cnt := st.2 + 1 in
  let base_fpath := PyStr.replace_backslash (PyStr.join dpath base_fname) in
  res <~ try_except
           (st_ <~ Os.stat base_fpath;
            io_ret (Absent.setdefault_append st.1 (st_size st_) base_fpath))
           [cFileNotFoundError; cIOError]
           (λ _, print [PStr "Error stat-ing:"; PStr base_fpath];;
                 io_ret st.1);
  io_ret (res, cnt).

Definition survey_dir (entry : string * list string)
    (st : gmap Z (list string) * Z) : io (gmap Z (list string) * Z) :=
  for_in entry.2 (survey_file entry.1) st.

Definition survey_folder (folder : string)
    (st : gmap Z (list string) * Z) : io (gmap Z (list string) * Z) :=
  entries <~ Os.walk folder;
  for_in entries survey_dir st.

Definition survey_library (folders : list string) : io (gmap Z (list string)) :=
  st <~ for_in folders survey_folder (∅, 0);
  let res := st.1 in
  let cnt := st.2 in
  let dups := Absent.count_dups res in
  print [PStr "nFiles:"; PInt cnt];;
  print [PStr "nLengths:"; PInt (Z.of_nat (size res))];;
  print [PStr "Lengths with more than 1 file:"; PInt dups];;
  io_ret res.

Definition scan_file (surveyed : gmap Z (list string)) (i_path fname : string)
    (s : Absent.scan) : io Absent.scan :=
  let cnt' := Absent.cnt s + 1 in
  let fpath := PyStr.replace_backslash (PyStr.join i_path fname) in
  found <~ Absent.locate fpath surveyed;
  if Absent.found_truthy found then
    print [PStr fpath; PStr "==>"; PStr (default "" found)];;
    io_ret (Absent.Scan (Absent.absent s) (Absent.not_needed s ++ [fpath]) cnt')
  else
    io_ret (Absent.Scan (Absent.absent s ++ [fpath]) (Absent.not_needed s) cnt').

Definition scan_dir (surveyed : gmap Z (list string))
    (entry : string * list string) (s : Absent.scan) : io Absent.scan :=
  for_in entry.2 (scan_file surveyed entry.1) s.

Definition delete_file (fpath : string) (_ : unit) : io unit :=
  print [PStr "Deleting:"; PStr fpath];;
  try_except (Os.remove fpath) [cException]
    (λ e, print [PStr "    Error in deletion:"; PStr fpath; PExn e]).

Definition report (s : Absent.scan) : io unit :=
  print [PStr (Absent.needed_line s)];;
  for_in (PyStr.sorted (Absent.absent s))
         (λ fpath _, print [PStr "Missing:"; PStr fpath]) tt;;
  print [PStr (Absent.needed_line s)].

Definition resolve_all (camera_folder : string)
    (surveyed : gmap Z (list string)) : io Absent.scan :=
  entries <~ Os.walk camera_folder;
  for_in entries (scan_dir surveyed) (Absent.Scan [] [] 0).

Definition main (camera_folder : string) (library_folders : list string)
    (rmdups : bool) : io unit :=
  surveyed <~ survey_library library_folders;
  s <~ resolve_all camera_folder surveyed;
  report s;;
  if rmdups then for_in (Absent.not_needed s) delete_file tt
  else io_ret tt.

End Stream.
End AbsentOut.

(** ** What the file system alone determines

    The functions below read a file system [m] (and a walk table [tr])
    without any state: they are what the lemmas further down compare the
    effectful code with. *)

#[global] Instance result_eq_dec {A} `{EqDecision A} : EqDecision (result A).
Proof. solve_decision. Defined.

Definition add_trace (w : world) (t : list event) : world :=
  World (fs w) (tree w) (cache w) (trace w ++ t).

Module Pure.

(** The bytes of the regular file at [p], if there is one. *)
Definition content (m : gmap string file) (p : string) : option string :=
  match m !! p with
  | Some f =>
      if Z.eqb (Filecmp.S_IFMT (f_mode f)) Filecmp.S_IFREG
      then Some (f_data f) else None
  | None => None
  end.

(** Two paths name regular files with the same bytes. *)
Definition identical (m : gmap string file) (a b : string) : Prop :=
  ∃ d, content m a = Some d ∧ content m b = Some d.

Definition sig_fs (m : gmap string file) (p : string) : result sig :=
  match Os.stat_fs m p with
  | Ok st => Ok (Filecmp._sig st)
  | Raise e => Raise e
  end.

(** Whether the two files can be read and hold the same bytes. *)
Definition same_bytes_fs (m : gmap string file) (f1 f2 : string)
    : result bool :=
  match Os.read_fs m f1 with
  | Raise e => Raise e
  | Ok b1 =>
      match Os.read_fs m f2 with
      | Raise e => Raise e
      | Ok b2 => Ok (String.eqb b1 b2)
      end
  end.

(** The value of [filecmp.cmp] when its memo table is left out. *)
Definition cmp_fs (m : gmap string file) (f1 f2 : string) (shallow : bool)
    : result bool :=
  match Os.stat_fs m f1 with
  | Raise e => Raise e
  | Ok st1 =>
      match Os.stat_fs m f2 with
      | Raise e => Raise e
      | Ok st2 =>
          let s1 := Filecmp._sig st1 in
          let s2 := Filecmp._sig st2 in
          if (negb (Z.eqb s1.1.1 Filecmp.S_IFREG)
              || negb (Z.eqb s2.1.1 Filecmp.S_IFREG))%bool then Ok false
          else if (shallow && bool_decide (s1 = s2))%bool then Ok true
          else if negb (Z.eqb s1.1.2 s2.1.2) then Ok false
          else Filecmp.do_cmp_fs m f1 f2
      end
  end.

Fixpoint locate_loop_fs (m : gmap string file) (tgt : string)
    (fpaths : list string) : result (option string) :=
  match fpaths with
  | [] => Ok None
  | q :: rest =>
      match cmp_fs m tgt q true with
      | Raise e => Raise e
      | Ok false => locate_loop_fs m tgt rest
      | Ok true =>
          match cmp_fs m tgt q false with
          | Raise e => Raise e
          | Ok true => Ok (Some q)
          | Ok false => locate_loop_fs m tgt rest
          end
      end
  end.

Definition locate_fs (m : gmap string file) (tgt : string)
    (survey : gmap Z (list string)) : result (option string) :=
  match Os.stat_fs m tgt with
  | Raise e => Raise e
  | Ok st => locate_loop_fs m tgt (default [] (survey !! st_size st))
  end.

(** A memo entry agrees with the file system whenever its key can be
    hit, that is whenever both signatures are the current ones. *)
Definition entry_ok (m : gmap string file) (k : string * string * sig * sig)
    (v : bool) : bool :=
  match sig_fs m k.1.1.1, sig_fs m k.1.1.2 with
  | Ok s1, Ok s2 =>
      if bool_decide (s1 = k.1.2 ∧ s2 = k.2)
      then bool_decide (Filecmp.do_cmp_fs m k.1.1.1 k.1.1.2 = Ok v)
      else true
  | _, _ => true
  end.

Definition coh (m : gmap string file)
    (c : gmap (string * string * sig * sig) bool) : Prop :=
  map_Forall (λ k v, entry_ok m k v = true) c.

Definition coherent (w : world) : Prop := coh (fs w) (cache w).

(** The path the program builds for a file name found in a directory. *)
Definition fpath_of (dpath fname : string) : string :=
  PyStr.replace_backslash (PyStr.join dpath fname).

Definition dir_paths (entry : string * list string) : list string :=
  map (fpath_of entry.1) entry.2.

(** Every path visited under one root, and under a list of roots, in
    traversal order. *)
Definition walked (tr : gmap string (list (string * list string)))
    (top : string) : list string :=
  flat_map dir_paths (default [] (tr !! top)).

Definition walked_all (tr : gmap string (list (string * list string)))
    (folders : list string) : list string :=
  flat_map (walked tr) folders.

Definition has_size (m : gmap string file) (n : Z) (p : string) : bool :=
  match Os.stat_fs m p with
  | Ok st => Z.eqb (st_size st) n
  | Raise _ => false
  end.

Definition stat_fails (m : gmap string file) (p : string) : bool :=
  match Os.stat_fs m p with
  | Ok _ => false
  | Raise _ => true
  end.

Definition index_step (m : gmap string file) (res : gmap Z (list string))
    (p : string) : gmap Z (list string) :=
  match Os.stat_fs m p with
  | Ok st => Absent.setdefault_append res (st_size st) p
  | Raise _ => res
  end.

(** The index and the counter of [survey_library] once the paths [ps]
    have been visited. *)
Definition scan_state (m : gmap string file)
    (st : gmap Z (list string) * Z) (ps : list string)
    : gmap Z (list string) * Z :=
  (foldl (index_step m) st.1 ps, st.2 + Z.of_nat (length ps)).

(** A bucket with more than one record. *)
Definition crowded (kv : Z * list string) : bool :=
  (1 <? length kv.2)%nat.

Definition stat_warning (p : string) : event :=
  EvPrint [PStr "Error stat-ing:"; PStr p].

Definition file_events (m : gmap string file) (p : string) : list event :=
  EvStat p :: (if stat_fails m p then [stat_warning p] else []).

Definition folder_events (m : gmap string file)
    (tr : gmap string (list (string * list string))) (top : string)
    : list event :=
  EvWalk top :: flat_map (file_events m) (walked tr top).

(** A path belongs to some bucket of the index. *)
Definition indexed (survey : gmap Z (list string)) (p : string) : Prop :=
  ∃ n l, survey !! n = Some l ∧ p ∈ l.

(** The files looked at by [filecmp.cmp tgt _ True], in call order. *)
Definition probes (t : list event) : list string :=
  omap (λ e, match e with EvCmp _ f2 true => Some f2 | _ => None end) t.

Definition is_cmp (e : event) : bool :=
  match e with EvCmp _ _ _ => true | _ => false end.

Definition is_remove (e : event) : bool :=
  match e with EvRemove _ => true | _ => false end.

(** Calls that look at the file system: walking, stat-ing, comparing. *)
Definition is_probe (e : event) : bool :=
  match e with EvWalk _ | EvStat _ | EvCmp _ _ _ => true | _ => false end.

Definition removals (t : list event) : list string :=
  omap (λ e, match e with EvRemove p => Some p | _ => None end) t.

Definition deletion_error (p : string) (e : exn) : event :=
  EvPrint [PStr "    Error in deletion:"; PStr p; PExn e].

Definition deleting (p : string) : event :=
  EvPrint [PStr "Deleting:"; PStr p].

(** The file system after [os.remove(p)], or the error it raises. *)
Definition remove_fs (m : gmap string file) (p : string)
    : result (gmap string file) :=
  match m !! p with
  | None => Raise (FileNotFoundError p)
  | Some f =>
      if (f_statable f && f_removable f)%bool then Ok (delete p m)
      else Raise (PermissionError p)
  end.

End Pure.

Import Pure.

(** ** Predicates and event lists used in the statements *)

#[global] Instance coherent_dec w : Decision (coherent w).
Proof. unfold coherent, coh. apply _. Defined.

(** The file at [p] can be opened and read. *)
Definition readable (m : gmap string file) (p : string) : Prop :=
  ∃ d, Os.read_fs m p = Ok d.

(** No key of the index maps to the empty list. *)
Definition no_empty_bucket (res : gmap Z (list string)) : Prop :=
  ∀ n l, res !! n = Some l → l ≠ [].

(** The three lines [survey_library] prints before it returns. *)
Definition summary (res : gmap Z (list string)) (cnt : Z) : list event :=
  [EvPrint [PStr "nFiles:"; PInt cnt];
   EvPrint [PStr "nLengths:"; PInt (Z.of_nat (size res))];
   EvPrint [PStr "Lengths with more than 1 file:";
            PInt (Absent.count_dups res)]].

(** What [main] prints between the scan and the deletions. *)
Definition report_events (s : Absent.scan) : list event :=
  EvPrint [PStr (Absent.needed_line s)]
  :: map (λ p, EvPrint [PStr "Missing:"; PStr p])
         (PyStr.sorted (Absent.absent s))
  ++ [EvPrint [PStr (Absent.needed_line s)]].

Definition not_remove (e : event) : bool := negb (is_remove e).

Definition not_probe (e : event) : bool := negb (is_probe e).

Definition any_event (e : event) : bool := true.

(** [locate] answers a candidate with a path that [main] takes as a
    match: read off the file system, and as [locate] run in [w] says. *)
Definition matched (m : gmap string file) (surveyed : gmap Z (list string))
    (p : string) : bool :=
  match locate_fs m p surveyed with
  | Ok found => Absent.found_truthy found
  | Raise _ => false
  end.

Definition located (w : world) (surveyed : gmap Z (list string))
    (p : string) : bool :=
  match (Absent.locate p surveyed w).1 with
  | Ok found => Absent.found_truthy found
  | Raise _ => false
  end.

Definition unmatched (m : gmap string file) (surveyed : gmap Z (list string))
    (p : string) : bool :=
  negb (matched m surveyed p).

(** The scan state [s'] is [s] after the candidates [ps] have been
    classified. *)
Definition classifies (m : gmap string file) (surveyed : gmap Z (list string))
    (ps : list string) (s s' : Absent.scan) : Prop :=
  Absent.not_needed s' = Absent.not_needed s ++ List.filter (matched m surveyed) ps
  ∧ Absent.absent s' = Absent.absent s ++ List.filter (unmatched m surveyed) ps
  ∧ Absent.cnt s' = Absent.cnt s + Z.of_nat (length ps).

(** [frames P c]: running [c] changes neither the files nor the walk
    table, and every call it logs satisfies [P]. *)
Definition frames {A} (P : event → bool) (c : io A) : Prop :=
  ∀ w, ∃ c' t, (c w).2 = World (fs w) (tree w) c' (trace w ++ t)
               ∧ forallb P t = true.


(** ** Small worlds used to run the program *)

Module Scenario.

(** A regular file (mode 0o100644) that may be stat-ed, read and
    unlinked. *)
Definition plain (data : string) (mtime : Z) : file :=
  File 33188 mtime data true true true.

(** A regular file in a directory that cannot be written to. *)
Definition pinned (data : string) (mtime : Z) : file :=
  File 33188 mtime data true true false.

Definition one_dir (top : string) (names : list string)
    : string * list (string * list string) :=
  (top, [(top, names)]).

(** Library {A, B}: same size, different bytes; candidate C equals B. *)
Definition collision : world :=
  World (list_to_map [("lib/A", plain "aaaaaaaaaa" 100);
                      ("lib/B", plain "bbbbbbbbbb" 200);
                      ("cam/C", plain "bbbbbbbbbb" 300)])
        (list_to_map [one_dir "lib" ["A"; "B"]; one_dir "cam" ["C"]])
        ∅ [].

(** Library {A (5 bytes)}; candidate D (7 bytes). *)
Definition other_size : world :=
  World (list_to_map [("lib/A", plain "aaaaa" 100);
                      ("cam/D", plain "ddddddd" 300)])
        (list_to_map [one_dir "lib" ["A"]; one_dir "cam" ["D"]])
        ∅ [].

(** The camera listing names [gone.jpg], which no longer exists when it
    is stat-ed, and then [new.jpg]. *)
Definition vanished_candidate : world :=
  World (list_to_map [("lib/A", plain "aaaaa" 100);
                      ("cam/new.jpg", plain "nnnnnnn" 300)])
        (list_to_map [one_dir "lib" ["A"];
                      one_dir "cam" ["gone.jpg"; "new.jpg"]])
        ∅ [].

(** [collision] after [lib/A] has been deleted by someone else. *)
Definition vanished_record : world :=
  World (delete "lib/A" (fs collision)) (tree collision) ∅ [].

(** The camera folder is the library folder. *)
Definition overlap : world :=
  World (list_to_map [("pics/a.jpg", plain "photo" 100)])
        (list_to_map [one_dir "pics" ["a.jpg"]])
        ∅ [].

(** Two camera files with copies in the library; the first one cannot
    be unlinked. *)
Definition stuck_delete : world :=
  World (list_to_map [("lib/A", plain "aaaaa" 100);
                      ("lib/B", plain "bbbbbbb" 200);
                      ("cam/1", pinned "aaaaa" 300);
                      ("cam/2", plain "bbbbbbb" 400)])
        (list_to_map [one_dir "lib" ["A"; "B"]; one_dir "cam" ["1"; "2"]])
        ∅ [].

(** The index of the library of [collision]. *)
Definition collision_index : gmap Z (list string) :=
  <[10 := ["lib/A"; "lib/B"]]> ∅.

(** The index of a library that holds one file of 5 bytes. *)
Definition five_only : gmap Z (list string) := <[5 := ["lib/A"]]> ∅.

End Scenario.

(** ** Vocabulary for the further properties *)

Fixpoint no_backslash (s : string) : bool :=
  match s with
  | EmptyString => true
  | String c s' => (negb (Ascii.eqb c PyStr.backslash) && no_backslash s')%bool
  end.

(** The bucket scan with the full comparison only. *)
Fixpoint first_identical_fs (m : gmap string file) (tgt : string)
    (fpaths : list string) : result (option string) :=
  match fpaths with
  | [] => Ok None
  | q :: rest =>
      match cmp_fs m tgt q false with
      | Raise e => Raise e
      | Ok true => Ok (Some q)
      | Ok false => first_identical_fs m tgt rest
      end
  end.



(** A comparison of [tgt] with something. *)
Definition is_cmp_of (tgt : string) (e : event) : bool :=
  match e with
  | EvCmp f1 _ _ => String.eqb f1 tgt
  | _ => false
  end.

(** [locate] returns for the candidate [p]. *)
Definition answered (m : gmap string file) (surveyed : gmap Z (list string))
    (p : string) : Prop :=
  ∃ found, locate_fs m p surveyed = Ok found.

(** [os.walk top] yields nothing: [top] is not a directory. *)
Definition yields_nothing (w : world) (top : string) : bool :=
  bool_decide (tree w !! top = None).

(** The index [survey_library] returns, empty if it raises. *)
Definition index_of (folders : list string) (w : world)
    : gmap Z (list string) :=
  match (Absent.survey_library folders w).1 with
  | Ok res => res
  | Raise _ => ∅
  end.

(** The number of records in all the buckets. *)
Definition records (res : gmap Z (list string)) : nat :=
  map_fold (λ _ fpaths acc, (length fpaths + acc)%nat) 0%nat res.



(** What the deletion loop logs for the paths [l], and the file system
    it leaves, starting from [m]. *)
Fixpoint deletions (m : gmap string file) (l : list string)
    : list event * gmap string file :=
  match l with
  | [] => ([], m)
  | p :: l' =>
      match remove_fs m p with
      | Ok m' =>
          let r := deletions m' l' in
          (deleting p :: EvRemove p :: r.1, r.2)
      | Raise e =>
          let r := deletions m l' in
          (deleting p :: EvRemove p :: deletion_error p e :: r.1, r.2)
      end
  end.

(** What a call of [print] can do: write the line and return, or raise
    and leave everything as it is. *)
Definition print_like (pr : list pyval → io unit) : Prop :=
  ∀ args w, pr args w = Os.print args w ∨ ∃ e, pr args w = (Raise e, w).

(** [e] is an exception that [pr] raises on some line. *)
Definition refused (pr : list pyval → io unit) (e : exn) : Prop :=
  ∃ args w, pr args w = (Raise e, w).

(** [c'] runs as [c] does, unless it ends with an exception of [pr]. *)
Definition same_or_refused (pr : list pyval → io unit) {A} (c' c : io A)
    : Prop :=
  ∀ w, c' w = c w ∨ ∃ e w', c' w = (Raise e, w') ∧ refused pr e.

Module MoreScenario.

(** [Scenario.collision] with [lib/A] a file that can be stat-ed but not
    opened (mode 000). *)
Definition locked_record : world :=
  World (list_to_map [("lib/A", File 32768 100 "aaaaaaaaaa" true false true);
                      ("lib/B", Scenario.plain "bbbbbbbbbb" 200);
                      ("cam/C", Scenario.plain "bbbbbbbbbb" 300)])
        (list_to_map [Scenario.one_dir "lib" ["A"; "B"];
                      Scenario.one_dir "cam" ["C"]])
        ∅ [].

(** A library whose only file is named [a\b] (one name, with a
    backslash in it). *)
Definition backslash_name : world :=
  World (list_to_map [("lib/a\b", Scenario.plain "xxxxx" 100)])
        (list_to_map [Scenario.one_dir "lib" ["a\b"]])
        ∅ [].

(** The same library with, besides, a directory [a] that holds a file
    [b]. *)
Definition backslash_clash : world :=
  World (list_to_map [("lib/a\b", Scenario.plain "xxxxx" 100);
                      ("lib/a/b", Scenario.plain "yyy" 200)])
        (list_to_map [("lib", [("lib", ["a\b"]); ("lib/a", ["b"])])])
        ∅ [].

(** The library listing names [ghost], which cannot be stat-ed. *)
Definition ghost : world :=
  World (list_to_map [("lib/A", Scenario.plain "aaaaa" 100);
                      ("lib/B", Scenario.plain "bbbbbbb" 200);
                      ("cam/new", Scenario.plain "nnn" 300);
                      ("cam/old", Scenario.plain "aaaaa" 400)])
        (list_to_map [Scenario.one_dir "lib" ["A"; "ghost"; "B"];
                      Scenario.one_dir "cam" ["old"; "new"]])
        ∅ [].

Definition ghost_index : gmap Z (list string) :=
  <[5 := ["lib/A"]]> (<[7 := ["lib/B"]]> ∅).

End MoreScenario.

(** ** Basic facts about the monad and the primitives *)

Lemma add_trace_nil w : add_trace w [] = w.
Proof. destruct w. unfold add_trace. simpl. by rewrite app_nil_r. Qed.

Lemma add_trace_app w t1 t2 :
  add_trace (add_trace w t1) t2 = add_trace w (t1 ++ t2).
Proof. unfold add_trace. simpl. by rewrite app_assoc. Qed.

Lemma stat_run p w :
  Os.stat p w = (Os.stat_fs (fs w) p, add_trace w [EvStat p]).
Proof. reflexivity. Qed.

Lemma walk_run top w :
  Os.walk top w = (Ok (default [] (tree w !! top)), add_trace w [EvWalk top]).
Proof. reflexivity. Qed.

Lemma print_run args w : Os.print args w = (Ok tt, add_trace w [EvPrint args]).
Proof. reflexivity. Qed.

Lemma sig_fs_stat m p st : Os.stat_fs m p = Ok st → sig_fs m p = Ok (Filecmp._sig st).
Proof. unfold sig_fs. by intros ->. Qed.

Lemma coh_empty m : coh m ∅.
Proof. apply map_Forall_empty. Qed.

Lemma coh_hit m c f1 f2 st1 st2 o :
  coh m c →
  Os.stat_fs m f1 = Ok st1 → Os.stat_fs m f2 = Ok st2 →
  c !! (f1, f2, Filecmp._sig st1, Filecmp._sig st2) = Some o →
  Filecmp.do_cmp_fs m f1 f2 = Ok o.
Proof.
  intros Hc H1 H2 Hk.
  pose proof (map_Forall_lookup_1 _ _ _ _ Hc Hk) as Hok.
  unfold entry_ok in Hok. simpl in Hok.
  rewrite (sig_fs_stat _ _ _ H1), (sig_fs_stat _ _ _ H2) in Hok.
  rewrite bool_decide_eq_true_2 in Hok by done.
  by apply bool_decide_eq_true_1 in Hok.
Qed.

Lemma coh_insert m c f1 f2 st1 st2 o :
  coh m c →
  Filecmp.do_cmp_fs m f1 f2 = Ok o →
  coh m (<[(f1, f2, Filecmp._sig st1, Filecmp._sig st2) := o]> c).
Proof.
  intros Hc Hd. apply map_Forall_insert_2; [|done].
  unfold entry_ok. simpl.
  destruct (sig_fs m f1); [|done]. destruct (sig_fs m f2); [|done].
  case_bool_decide; [|done]. by apply bool_decide_eq_true_2.
Qed.

(** [filecmp.cmp] computes [cmp_fs] whenever its memo table is coherent,
    and leaves a coherent table behind. *)
Lemma cmp_run f1 f2 sh w :
  coherent w →
  ∃ c', Filecmp.cmp f1 f2 sh w
        = (cmp_fs (fs w) f1 f2 sh,
           World (fs w) (tree w) c' (trace w ++ [EvCmp f1 f2 sh]))
      ∧ coh (fs w) c'.
Proof.
  intros Hc. unfold coherent in Hc.
  unfold Filecmp.cmp, cmp_fs, io_bind, log, Filecmp.stat_quiet, lift. simpl.
  destruct (Os.stat_fs (fs w) f1) as [st1|e1] eqn:H1; [|by eauto].
  destruct (Os.stat_fs (fs w) f2) as [st2|e2] eqn:H2; [|by eauto].
  destruct (negb _ || negb _)%bool; [by eauto|].
  destruct (sh && _)%bool; [by eauto|].
  destruct (negb _); [by eauto|].
  unfold Filecmp.cache_get, lift. simpl.
  destruct (cache w !! _) as [o|] eqn:Hk.
  - exists (cache w). split; [|done].
    by rewrite (coh_hit _ _ _ _ _ _ _ Hc H1 H2 Hk).
  - unfold Filecmp._do_cmp, lift. simpl.
    destruct (Filecmp.do_cmp_fs (fs w) f1 f2) as [o|e] eqn:Hd; [|by eauto].
    unfold Filecmp.cache_len, lift. simpl.
    destruct (100 <? size (cache w))%nat; simpl.
    + eexists. split; [reflexivity|]. apply coh_insert; [apply coh_empty|done].
    + eexists. split; [reflexivity|]. by apply coh_insert.
Qed.

(** ** The chunked comparison of [_do_cmp] *)

Lemma fp_read_split n s : (Filecmp.fp_read n s).1 +:+ (Filecmp.fp_read n s).2 = s.
Proof.
  revert s. induction n as [|n IH]; intros [|c s]; simpl; try done.
  unfold String.append. fold String.append. by rewrite IH.
Qed.

Lemma fp_read_nothing n s :
  (0 < n)%nat → (Filecmp.fp_read n s).1 = "" → s = "".
Proof. destruct n as [|n]; [lia|]. by destruct s. Qed.

Lemma fp_read_rest n s :
  (0 < n)%nat → s ≠ "" →
  (String.length (Filecmp.fp_read n s).2 < String.length s)%nat.
Proof.
  intros Hn Hs.
  assert (H : ∀ k t, (String.length (Filecmp.fp_read k t).2 ≤ String.length t)%nat).
  { induction k as [|k IH]; intros [|c t]; simpl; try lia.
    specialize (IH t). lia. }
  destruct n as [|n]; [lia|]. destruct s as [|c s]; [done|]. simpl.
  specialize (H n s). lia.
Qed.

Lemma eqb_common_prefix b x y :
  String.eqb (b +:+ x) (b +:+ y) = String.eqb x y.
Proof.
  induction b as [|c b IH]; [done|].
  unfold String.append. fold String.append. simpl.
  by rewrite Ascii.eqb_refl.
Qed.

(** The loop returns, and returns whether the two byte strings are
    equal. *)
Lemma cmp_chunks_enough bufsize fuel r1 r2 :
  (0 < bufsize)%nat → (String.length r1 < fuel)%nat →
  Filecmp.cmp_chunks bufsize fuel r1 r2 = Some (String.eqb r1 r2).
Proof.
  intros Hn. revert r1 r2. induction fuel as [|fuel IH]; intros r1 r2 Hf.
  { lia. }
  simpl.
  pose proof (fp_read_split bufsize r1) as H1.
  pose proof (fp_read_split bufsize r2) as H2.
  destruct (String.eqb_spec (Filecmp.fp_read bufsize r1).1
              (Filecmp.fp_read bufsize r2).1) as [Heq|Hne]; simpl.
  - destruct (String.eqb_spec (Filecmp.fp_read bufsize r1).1 "") as [He|Hn0].
    + rewrite (fp_read_nothing _ _ Hn He).
      rewrite He in Heq. symmetry in Heq.
      by rewrite (fp_read_nothing _ _ Hn Heq).
    + rewrite IH.
      * f_equal. rewrite <- H1 at 2. rewrite <- H2 at 2.
        by rewrite Heq, eqb_common_prefix.
      * assert (Hr1 : r1 ≠ "") by (intros ->; by destruct bufsize).
        pose proof (fp_read_rest bufsize r1 Hn Hr1). lia.
  - f_equal. symmetry. apply String.eqb_neq. by intros ->.
Qed.

Lemma do_cmp_fs_same m f1 f2 :
  Filecmp.do_cmp_fs m f1 f2 = same_bytes_fs m f1 f2.
Proof.
  unfold Filecmp.do_cmp_fs, same_bytes_fs.
  destruct (Os.read_fs m f1) as [b1|]; [|done].
  destruct (Os.read_fs m f2) as [b2|]; [|done].
  rewrite cmp_chunks_enough; [done| |lia].
  unfold Filecmp.BUFSIZE. lia.
Qed.

(** ** [cmp_fs] against the contents of the files *)

Lemma stat_raise_read m p e :
  Os.stat_fs m p = Raise e → Os.read_fs m p = Raise e.
Proof.
  unfold Os.stat_fs, Os.read_fs.
  destruct (m !! p) as [f|]; [|by intros [= ->]].
  destruct (f_statable f); [done|by intros [= ->]].
Qed.

Lemma read_ok_inv m p d :
  Os.read_fs m p = Ok d →
  ∃ f, m !! p = Some f ∧ f_statable f = true ∧ f_readable f = true
       ∧ d = f_data f.
Proof.
  unfold Os.read_fs. destruct (m !! p) as [f|]; [|done].
  destruct (f_statable f) eqn:?, (f_readable f) eqn:?; simpl; intros;
    simplify_eq; eauto 10.
Qed.

Lemma content_inv m p d :
  content m p = Some d →
  ∃ f, m !! p = Some f ∧ Filecmp.S_IFMT (f_mode f) = Filecmp.S_IFREG
       ∧ d = f_data f.
Proof.
  unfold content. destruct (m !! p) as [f|]; [|done].
  destruct (Z.eqb_spec (Filecmp.S_IFMT (f_mode f)) Filecmp.S_IFREG);
    intros; simplify_eq; eauto.
Qed.

Ltac cmp_unfold :=
  unfold cmp_fs; rewrite ?do_cmp_fs_same;
  unfold same_bytes_fs, Os.read_fs, Os.stat_fs, Filecmp._sig;
  simpl.

Lemma cmp_fs_raise m a b sh e :
  cmp_fs m a b sh = Raise e →
  Os.read_fs m a = Raise e ∨ Os.read_fs m b = Raise e.
Proof.
  cmp_unfold.
  destruct (m !! a) as [fa|]; [|by intros [= ->]; left].
  destruct (f_statable fa); simpl; [|by intros [= ->]; left].
  destruct (m !! b) as [fb|]; [|by intros [= ->]; right].
  destruct (f_statable fb); simpl; [|by intros [= ->]; right].
  destruct (negb _ || negb _)%bool; [done|].
  destruct (sh && _)%bool; [done|].
  destruct (negb _); [done|].
  destruct (f_readable fa); simpl; [|by intros [= ->]; left].
  destruct (f_readable fb); simpl; [done|by intros [= ->]; right].
Qed.

Lemma cmp_fs_true_identical m a b :
  cmp_fs m a b false = Ok true → identical m a b.
Proof.
  unfold identical, content. cmp_unfold.
  destruct (m !! a) as [fa|]; [|done].
  destruct (f_statable fa); simpl; [|done].
  destruct (m !! b) as [fb|]; [|done].
  destruct (f_statable fb); simpl; [|done].
  destruct (Z.eqb_spec (Filecmp.S_IFMT (f_mode fa)) Filecmp.S_IFREG);
    [|done].
  destruct (Z.eqb_spec (Filecmp.S_IFMT (f_mode fb)) Filecmp.S_IFREG);
    [|done].
  simpl. case_match; [done|].
  destruct (f_readable fa), (f_readable fb); simpl; try done.
  intros [= Heq%String.eqb_eq]. exists (f_data fa). by rewrite Heq.
Qed.

Lemma cmp_fs_false_distinct m a b sh :
  cmp_fs m a b sh = Ok false → ¬ identical m a b.
Proof.
  intros Hcmp (d & (fa & Ha & Hra & ->)%content_inv & (fb & Hb & Hrb & Hd)%content_inv).
  revert Hcmp. unfold cmp_fs. rewrite do_cmp_fs_same.
  unfold same_bytes_fs, Os.read_fs, Os.stat_fs, Filecmp._sig.
  rewrite Ha, Hb.
  destruct (f_statable fa), (f_statable fb); simpl; try done.
  rewrite Hra, Hrb, Hd, !Z.eqb_refl. simpl.
  destruct (sh && _)%bool; [done|].
  destruct (f_readable fa), (f_readable fb); simpl; try done.
  by rewrite String.eqb_refl.
Qed.

Lemma cmp_fs_identical m a b sh :
  identical m a b → readable m a → readable m b →
  cmp_fs m a b sh = Ok true.
Proof.
  intros (d & (fa & Ha & Hra & ->)%content_inv & (fb & Hb & Hrb & Hd)%content_inv).
  intros [da (fa' & Ha' & Hsa & Hoa & _)%read_ok_inv].
  intros [db (fb' & Hb' & Hsb & Hob & _)%read_ok_inv].
  simplify_eq.
  unfold cmp_fs. rewrite do_cmp_fs_same.
  unfold same_bytes_fs, Os.read_fs, Os.stat_fs, Filecmp._sig.
  rewrite Ha, Hb, Hsa, Hsb, Hoa, Hob. simpl.
  rewrite Hra, Hrb, Hd, !Z.eqb_refl. simpl.
  rewrite String.eqb_refl. by destruct (sh && _)%bool.
Qed.



(** ** The bucket scan of [locate] *)

Lemma locate_loop_fs_some m tgt l p :
  locate_loop_fs m tgt l = Ok (Some p) → p ∈ l ∧ identical m tgt p.
Proof.
  induction l as [|q l IH]; simpl; [done|].
  destruct (cmp_fs m tgt q true) as [[]|] eqn:H1; [| |done].
  - destruct (cmp_fs m tgt q false) as [[]|] eqn:H2; [| |done].
    + intros [= <-]. split; [left|]. by apply cmp_fs_true_identical.
    + intros [??]%IH. split; [by right|done].
  - intros [??]%IH. split; [by right|done].
Qed.

Lemma locate_loop_fs_none m tgt l :
  locate_loop_fs m tgt l = Ok None → ∀ q, q ∈ l → ¬ identical m tgt q.
Proof.
  induction l as [|q l IH]; simpl; [by intros _ ? ?%elem_of_nil|].
  destruct (cmp_fs m tgt q true) as [[]|] eqn:H1; [| |done].
  - destruct (cmp_fs m tgt q false) as [[]|] eqn:H2; [done| |done].
    intros Hl q' [->|?]%elem_of_cons; [|by apply IH].
    by eapply cmp_fs_false_distinct.
  - intros Hl q' [->|?]%elem_of_cons; [|by apply IH].
    by eapply cmp_fs_false_distinct.
Qed.

Lemma locate_loop_fs_raise m tgt l e :
  locate_loop_fs m tgt l = Raise e →
  ∃ q, (q = tgt ∨ q ∈ l) ∧ Os.read_fs m q = Raise e.
Proof.
  induction l as [|q l IH]; simpl; [done|].
  assert (Hfail : ∀ sh, cmp_fs m tgt q sh = Raise e →
            ∃ q', (q' = tgt ∨ q' ∈ q :: l) ∧ Os.read_fs m q' = Raise e).
  { intros sh [?|?]%cmp_fs_raise; [exists tgt|exists q]; split; auto.
    right; left. }
  assert (Hrest : locate_loop_fs m tgt l = Raise e →
            ∃ q', (q' = tgt ∨ q' ∈ q :: l) ∧ Os.read_fs m q' = Raise e).
  { intros (q' & [Hq|Hq] & ?)%IH; exists q'; split; auto. right; by right. }
  destruct (cmp_fs m tgt q true) as [[]|] eqn:H1.
  - destruct (cmp_fs m tgt q false) as [[]|] eqn:H2; [done|done|].
    intros [= ->]. by eapply Hfail.
  - done.
  - intros [= ->]. by eapply Hfail.
Qed.

(** The effectful scan computes [locate_loop_fs]; it changes nothing but
    the memo table and the log, and logs comparisons only. *)
Lemma locate_loop_run tgt l w :
  coherent w →
  ∃ c' t, Absent.locate_loop tgt l w
          = (locate_loop_fs (fs w) tgt l,
             World (fs w) (tree w) c' (trace w ++ t))
        ∧ coh (fs w) c' ∧ forallb is_cmp t = true.
Proof.
  revert w. induction l as [|q l IH]; intros w Hc; simpl.
  - exists (cache w), []. rewrite app_nil_r. by destruct w.
  - unfold io_bind.
    destruct (cmp_run tgt q true w Hc) as (c1 & -> & Hc1).
    set (w1 := World _ _ c1 _).
    destruct (cmp_fs (fs w) tgt q true) as [[]|e] eqn:H1; simpl.
    + destruct (cmp_run tgt q false w1 Hc1) as (c2 & -> & Hc2). simpl.
      set (w2 := World _ _ c2 _).
      destruct (cmp_fs (fs w) tgt q false) as [[]|e] eqn:H2; simpl.
      * exists c2, [EvCmp tgt q true; EvCmp tgt q false].
        unfold io_ret, w2. by rewrite <- app_assoc.
      * destruct (IH w2 Hc2) as (c3 & t & -> & Hc3 & Ht). simpl.
        exists c3, (EvCmp tgt q true :: EvCmp tgt q false :: t).
        by rewrite <- !app_assoc.
      * exists c2, [EvCmp tgt q true; EvCmp tgt q false].
        unfold w2. by rewrite <- app_assoc.
    + destruct (IH w1 Hc1) as (c3 & t & -> & Hc3 & Ht). simpl.
      exists c3, (EvCmp tgt q true :: t). by rewrite <- !app_assoc.
    + by exists c1, [EvCmp tgt q true].
Qed.

Lemma locate_run tgt survey w :
  coherent w →
  ∃ c' t, Absent.locate tgt survey w
          = (locate_fs (fs w) tgt survey,
             World (fs w) (tree w) c' (trace w ++ EvStat tgt :: t))
        ∧ coh (fs w) c' ∧ forallb is_cmp t = true.
Proof.
  intros Hc. unfold Absent.locate, locate_fs, io_bind. rewrite stat_run.
  destruct (Os.stat_fs (fs w) tgt) as [st|e]; [|by exists (cache w), []].
  destruct (locate_loop_run tgt (default [] (survey !! st_size st))
              (add_trace w [EvStat tgt]) Hc) as (c' & t & Hrun & Hc' & Ht).
  exists c', t. split; [|done].
  destruct (default [] (survey !! st_size st)) as [|q l] eqn:Hb.
  - simpl in Hrun. unfold io_ret in *. by rewrite Hrun, <- app_assoc.
  - rewrite Hrun. simpl. by rewrite <- app_assoc.
Qed.

(** ** [survey_library] as a fold over the visited paths *)

Lemma flat_map_singleton {A B} (f : A → B) (l : list A) :
  flat_map (λ x, [f x]) l = map f l.
Proof. induction l; simpl; congruence. Qed.

Lemma flat_map_map {A B C} (f : A → B) (g : B → list C) (l : list A) :
  flat_map g (map f l) = flat_map (λ x, g (f x)) l.
Proof. induction l; simpl; congruence. Qed.

Lemma flat_map_nested {A B C} (f : A → list B) (g : B → list C) (l : list A) :
  flat_map g (flat_map f l) = flat_map (λ x, flat_map g (f x)) l.
Proof.
  induction l as [|x l IH]; simpl; [done|].
  by rewrite flat_map_app, IH.
Qed.

Lemma scan_state_nil m st : scan_state m st [] = st.
Proof. destruct st. unfold scan_state. simpl. f_equal. lia. Qed.

Lemma scan_state_app m st ps1 ps2 :
  scan_state m (scan_state m st ps1) ps2 = scan_state m st (ps1 ++ ps2).
Proof.
  unfold scan_state. simpl. rewrite foldl_app, length_app. f_equal. lia.
Qed.

Lemma isinstance_IOError e :
  existsb (isinstance e) [cFileNotFoundError; cIOError] = true.
Proof. by destruct e. Qed.

Lemma survey_file_run d b st w :
  Absent.survey_file d b st w
  = (Ok (scan_state (fs w) st [fpath_of d b]),
     add_trace w (file_events (fs w) (fpath_of d b))).
Proof.
  unfold Absent.survey_file, try_except, io_bind, scan_state, file_events,
    index_step, stat_fails.
  fold (fpath_of d b). rewrite stat_run.
  destruct (Os.stat_fs (fs w) (fpath_of d b)) as [st_|e] eqn:Hs.
  - simpl. by rewrite Hs.
  - rewrite isinstance_IOError, print_run. simpl.
    by rewrite Hs, add_trace_app.
Qed.

(** A loop whose body visits the paths [items x] and logs [ev x]. *)
Lemma for_in_scan {A} (body : A → gmap Z (list string) * Z
                                → io (gmap Z (list string) * Z))
    (items : A → list string) (ev : A → list event) (w0 : world) :
  (∀ x st t, body x st (add_trace w0 t)
             = (Ok (scan_state (fs w0) st (items x)),
                add_trace w0 (t ++ ev x))) →
  ∀ l st t, for_in l body st (add_trace w0 t)
            = (Ok (scan_state (fs w0) st (flat_map items l)),
               add_trace w0 (t ++ flat_map ev l)).
Proof.
  intros Hbody l. induction l as [|x l IH]; intros st t; simpl.
  - by rewrite scan_state_nil, app_nil_r.
  - unfold io_bind. rewrite Hbody, IH.
    by rewrite scan_state_app, <- app_assoc.
Qed.

Lemma survey_dir_run entry st w :
  Absent.survey_dir entry st w
  = (Ok (scan_state (fs w) st (dir_paths entry)),
     add_trace w (flat_map (file_events (fs w)) (dir_paths entry))).
Proof.
  unfold Absent.survey_dir, dir_paths.
  rewrite <- (add_trace_nil w) at 1.
  rewrite (for_in_scan _ (λ b, [fpath_of entry.1 b])
             (λ b, file_events (fs w) (fpath_of entry.1 b)) w).
  - by rewrite flat_map_singleton, flat_map_map.
  - intros b st' t. by rewrite survey_file_run, add_trace_app.
Qed.

Lemma survey_folder_run top st w :
  Absent.survey_folder top st w
  = (Ok (scan_state (fs w) st (walked (tree w) top)),
     add_trace w (folder_events (fs w) (tree w) top)).
Proof.
  unfold Absent.survey_folder, io_bind, folder_events, walked.
  rewrite walk_run.
  rewrite (for_in_scan _ dir_paths
             (λ entry, flat_map (file_events (fs w)) (dir_paths entry)) w).
  - by rewrite flat_map_nested.
  - intros entry st' t. by rewrite survey_dir_run, add_trace_app.
Qed.

Lemma survey_folders_run folders st w :
  for_in folders Absent.survey_folder st w
  = (Ok (scan_state (fs w) st (walked_all (tree w) folders)),
     add_trace w (flat_map (folder_events (fs w) (tree w)) folders)).
Proof.
  unfold walked_all.
  rewrite <- (add_trace_nil w) at 1.
  rewrite (for_in_scan _ (walked (tree w)) (folder_events (fs w) (tree w)) w).
  - done.
  - intros top st' t. by rewrite survey_folder_run, add_trace_app.
Qed.

Lemma survey_library_run folders w :
  let ps := walked_all (tree w) folders in
  let res := foldl (index_step (fs w)) ∅ ps in
  Absent.survey_library folders w
  = (Ok res,
     add_trace w (flat_map (folder_events (fs w) (tree w)) folders
                  ++ summary res (Z.of_nat (length ps)))).
Proof.
  unfold Absent.survey_library, io_bind. rewrite survey_folders_run.
  unfold scan_state. simpl. unfold io_ret, add_trace, summary. simpl.
  by rewrite Z.add_0_l, <- !app_assoc.
Qed.

(** ** The shape of the index *)

Lemma index_step_lookup m res p n :
  default [] (index_step m res p !! n)
  = default [] (res !! n) ++ (if has_size m n p then [p] else []).
Proof.
  unfold index_step, has_size, Absent.setdefault_append.
  destruct (Os.stat_fs m p) as [st|e]; [|by rewrite app_nil_r].
  destruct (Z.eqb_spec (st_size st) n) as [->|Hne].
  - by rewrite lookup_insert_eq.
  - by rewrite lookup_insert_ne, app_nil_r.
Qed.

Lemma index_bucket m ps res n :
  default [] (foldl (index_step m) res ps !! n)
  = default [] (res !! n) ++ List.filter (has_size m n) ps.
Proof.
  revert res. induction ps as [|p ps IH]; intros res; simpl.
  - by rewrite app_nil_r.
  - rewrite IH, index_step_lookup, <- app_assoc.
    by destruct (has_size m n p).
Qed.

Lemma index_step_no_empty m res p :
  no_empty_bucket res → no_empty_bucket (index_step m res p).
Proof.
  intros Hres n l. unfold index_step, Absent.setdefault_append.
  destruct (Os.stat_fs m p) as [st|e]; [|by apply Hres].
  destruct (decide (st_size st = n)) as [->|Hne].
  - rewrite lookup_insert_eq. intros [= <-]. by intros [? ?]%app_eq_nil.
  - rewrite lookup_insert_ne by done. apply Hres.
Qed.

Lemma index_no_empty m ps res :
  no_empty_bucket res → no_empty_bucket (foldl (index_step m) res ps).
Proof.
  revert res. induction ps as [|p ps IH]; intros res Hres; simpl; [done|].
  by apply IH, index_step_no_empty.
Qed.

Lemma index_sound m ps n l p :
  foldl (index_step m) ∅ ps !! n = Some l → p ∈ l →
  p ∈ ps ∧ has_size m n p = true.
Proof.
  intros Hl Hp. pose proof (index_bucket m ps ∅ n) as Hb.
  rewrite Hl, lookup_empty in Hb. simpl in Hb. subst l.
  apply list_elem_of_In, filter_In in Hp as [Hp ?].
  by apply list_elem_of_In in Hp.
Qed.

Lemma index_complete m ps n p :
  p ∈ ps → has_size m n p = true →
  p ∈ default [] (foldl (index_step m) ∅ ps !! n).
Proof.
  intros Hp Hs. rewrite index_bucket, lookup_empty. simpl.
  apply list_elem_of_In, filter_In. by rewrite <- list_elem_of_In.
Qed.

Lemma has_size_stat m n p :
  has_size m n p = true ↔ ∃ st, Os.stat_fs m p = Ok st ∧ st_size st = n.
Proof.
  unfold has_size. destruct (Os.stat_fs m p) as [st|e].
  - rewrite Z.eqb_eq. split; [by eauto|]. by intros (? & [= <-] & ?).
  - split; [done|]. by intros (? & ? & _).
Qed.

Lemma count_dups_crowded res :
  Absent.count_dups res
  = Z.of_nat (length (List.filter crowded (map_to_list res))).
Proof.
  unfold Absent.count_dups. rewrite map_fold_foldr.
  induction (map_to_list res) as [|[k l] kvs IH]; [done|].
  simpl. rewrite IH. unfold crowded. simpl.
  destruct (1 <? length l)%nat; simpl length; lia.
Qed.

Lemma warning_in_events m tr folders p :
  stat_warning p ∈ flat_map (folder_events m tr) folders
  ↔ p ∈ walked_all tr folders ∧ stat_fails m p = true.
Proof.
  unfold walked_all. rewrite !list_elem_of_In, !in_flat_map.
  split.
  - intros (top & Htop & Hin). unfold folder_events in Hin.
    destruct Hin as [Hin|Hin]; [done|].
    apply in_flat_map in Hin as (q & Hq & Hin). unfold file_events in Hin.
    destruct Hin as [Hin|Hin]; [done|].
    destruct (stat_fails m q) eqn:Hf; [|done].
    destruct Hin as [[= ->]|[]]. split; [|done]. eauto.
  - intros [(top & Htop & Hp) Hf]. exists top. split; [done|].
    right. apply in_flat_map. exists p. split; [done|].
    unfold file_events. rewrite Hf. right; by left.
Qed.

(** ** Frame: what a computation leaves untouched *)

Section Frames.
Context (P : event → bool).

Lemma frames_ret {A} (a : A) : frames P (io_ret a).
Proof.
  intros w. exists (cache w), []. simpl. rewrite app_nil_r. by destruct w.
Qed.

Lemma frames_raise {A} e : frames P (raise (A := A) e).
Proof.
  intros w. exists (cache w), []. simpl. rewrite app_nil_r. by destruct w.
Qed.

Lemma frames_lift {A} (f : world → result A) : frames P (lift f).
Proof.
  intros w. exists (cache w), []. simpl. rewrite app_nil_r. by destruct w.
Qed.

Lemma frames_log e : P e = true → frames P (log e).
Proof. intros He w. exists (cache w), [e]. simpl. by rewrite He. Qed.

Lemma frames_bind {A B} (c : io A) (k : A → io B) :
  frames P c → (∀ a, frames P (k a)) → frames P (io_bind c k).
Proof.
  intros Hc Hk w. destruct (Hc w) as (c1 & t1 & E1 & F1). unfold io_bind.
  destruct (c w) as [[a|e] w1]; simpl in E1; subst w1.
  - destruct (Hk a (World (fs w) (tree w) c1 (trace w ++ t1)))
      as (c2 & t2 & E2 & F2).
    exists c2, (t1 ++ t2). rewrite E2. simpl.
    by rewrite app_assoc, forallb_app, F1, F2.
  - by exists c1, t1.
Qed.

Lemma frames_try_except {A} (c : io A) classes (h : exn → io A) :
  frames P c → (∀ e, frames P (h e)) → frames P (try_except c classes h).
Proof.
  intros Hc Hh w. destruct (Hc w) as (c1 & t1 & E1 & F1). unfold try_except.
  destruct (c w) as [[a|e] w1]; simpl in E1; subst w1.
  - by exists c1, t1.
  - destruct (existsb (isinstance e) classes); [|by exists c1, t1].
    destruct (Hh e (World (fs w) (tree w) c1 (trace w ++ t1)))
      as (c2 & t2 & E2 & F2).
    exists c2, (t1 ++ t2). rewrite E2. simpl.
    by rewrite app_assoc, forallb_app, F1, F2.
Qed.

Lemma frames_for_in {A S} (l : list A) (body : A → S → io S) s :
  (∀ x s', frames P (body x s')) → frames P (for_in l body s).
Proof.
  intros Hbody. revert s. induction l as [|x l IH]; intros s; simpl.
  - apply frames_ret.
  - apply frames_bind; [apply Hbody|done].
Qed.

Lemma frames_cache_op (f : world → gmap (string * string * sig * sig) bool) :
  frames P (λ w, (Ok tt, World (fs w) (tree w) (f w) (trace w))).
Proof. intros w. exists (f w), []. simpl. by rewrite app_nil_r. Qed.

Lemma frames_cmp f1 f2 sh :
  P (EvCmp f1 f2 sh) = true → frames P (Filecmp.cmp f1 f2 sh).
Proof.
  intros HP. unfold Filecmp.cmp.
  apply frames_bind; [by apply frames_log|intros _].
  apply frames_bind; [apply frames_lift|intros st1].
  apply frames_bind; [apply frames_lift|intros st2]. simpl.
  destruct (negb _ || negb _)%bool; [apply frames_ret|].
  destruct (sh && _)%bool; [apply frames_ret|].
  destruct (negb _); [apply frames_ret|].
  apply frames_bind; [apply frames_lift|intros [o|]]; [apply frames_ret|].
  apply frames_bind; [apply frames_lift|intros o].
  apply frames_bind; [apply frames_lift|intros n].
  apply frames_bind.
  { destruct (100 <? n)%nat; [|apply frames_ret].
    apply (frames_cache_op (λ _, ∅)). }
  intros _. apply frames_bind; [|intros _; apply frames_ret].
  apply (frames_cache_op (λ w, <[_ := o]> (cache w))).
Qed.

Lemma frames_locate_loop tgt l :
  (∀ q sh, P (EvCmp tgt q sh) = true) → frames P (Absent.locate_loop tgt l).
Proof.
  intros HP. induction l as [|q l IH]; simpl; [apply frames_ret|].
  apply frames_bind; [by apply frames_cmp|intros c1].
  destruct (negb c1); [done|].
  apply frames_bind; [by apply frames_cmp|intros c2].
  destruct c2; [apply frames_ret|done].
Qed.

Lemma frames_locate tgt survey :
  P (EvStat tgt) = true → (∀ q sh, P (EvCmp tgt q sh) = true) →
  frames P (Absent.locate tgt survey).
Proof.
  intros HS HP. unfold Absent.locate, Os.stat.
  apply frames_bind; [|intros st].
  { apply frames_bind; [by apply frames_log|intros _; apply frames_lift]. }
  destruct (default [] _); [apply frames_ret|by apply frames_locate_loop].
Qed.

End Frames.

Lemma frames_resolve_all camera surveyed :
  frames not_remove (Absent.resolve_all camera surveyed).
Proof.
  unfold Absent.resolve_all, Os.walk.
  apply frames_bind; [|intros entries].
  { apply frames_bind; [by apply frames_log|intros _; apply frames_lift]. }
  apply frames_for_in. intros entry s. unfold Absent.scan_dir.
  apply frames_for_in. intros fname s'. unfold Absent.scan_file.
  apply frames_bind; [by apply frames_locate|intros found].
  destruct (Absent.found_truthy found); [|apply frames_ret].
  apply frames_bind; [by apply frames_log|intros _; apply frames_ret].
Qed.

Lemma removals_app t1 t2 : removals (t1 ++ t2) = removals t1 ++ removals t2.
Proof. apply omap_app. Qed.

Lemma removals_not_remove t : forallb not_remove t = true → removals t = [].
Proof.
  induction t as [|e t IH]; simpl; [done|].
  intros [He Ht]%andb_true_iff. unfold removals in *. simpl.
  destruct e; try done; by apply IH.
Qed.

Lemma survey_events_no_removal m tr folders :
  removals (flat_map (folder_events m tr) folders) = [].
Proof.
  apply removals_not_remove, forallb_forall.
  intros e (top & _ & He)%in_flat_map. unfold folder_events in He.
  destruct He as [<-|He]; [done|].
  apply in_flat_map in He as (p & _ & He). unfold file_events in He.
  destruct He as [<-|He]; [done|].
  destruct (stat_fails m p); [|done].
  by destruct He as [<-|[]].
Qed.

(** ** The report and the deletion loop of [main] *)

Lemma for_in_print (f : string → list pyval) l w :
  for_in l (λ p _, Os.print (f p)) tt w
  = (Ok tt, add_trace w (map (λ p, EvPrint (f p)) l)).
Proof.
  revert w. induction l as [|p l IH]; intros w; simpl.
  - unfold io_ret. by rewrite add_trace_nil.
  - unfold io_bind. rewrite print_run, IH. by rewrite add_trace_app.
Qed.

Lemma report_run s w : Absent.report s w = (Ok tt, add_trace w (report_events s)).
Proof.
  unfold Absent.report, io_bind, report_events.
  rewrite print_run, for_in_print, print_run.
  by rewrite !add_trace_app.
Qed.

Lemma delete_file_eval p w :
  Absent.delete_file p tt w
  = match remove_fs (fs w) p with
    | Ok m' =>
        (Ok tt, World m' (tree w) (cache w)
                  (trace w ++ [deleting p; EvRemove p]))
    | Raise e =>
        (Ok tt, add_trace w [deleting p; EvRemove p; deletion_error p e])
    end.
Proof.
  unfold Absent.delete_file, io_bind, try_except, Os.remove, io_bind, remove_fs.
  rewrite print_run. simpl.
  destruct (fs w !! p) as [f|] eqn:Hp.
  - destruct (f_statable f && f_removable f)%bool; simpl.
    + by rewrite <- app_assoc.
    + rewrite print_run. unfold add_trace. simpl. by rewrite <- !app_assoc.
  - rewrite print_run. unfold add_trace. simpl. by rewrite <- !app_assoc.
Qed.

(** What one pass of the deletion loop does for one file. *)
Lemma delete_file_run p w :
  ∃ w' t, Absent.delete_file p tt w = (Ok tt, w')
    ∧ tree w' = tree w ∧ cache w' = cache w ∧ trace w' = trace w ++ t
    ∧ forallb not_probe t = true ∧ removals t = [p]
    ∧ ((fs w' = delete p (fs w))
       ∨ (fs w' = fs w ∧ ∃ e, deletion_error p e ∈ t)).
Proof.
  rewrite delete_file_eval. destruct (remove_fs (fs w) p) as [m'|e] eqn:Hr.
  - eexists _, _. repeat split; try done.
    left. simpl. unfold remove_fs in Hr.
    destruct (fs w !! p) as [f|]; [|done].
    destruct (f_statable f && f_removable f)%bool; by simplify_eq.
  - eexists _, _. repeat split; try done.
    right. split; [done|]. exists e. do 2 right. by left.
Qed.

Lemma delete_loop_run l w :
  ∃ w' t, for_in l Absent.delete_file tt w = (Ok tt, w')
    ∧ trace w' = trace w ++ t
    ∧ forallb not_probe t = true ∧ removals t = l
    ∧ (∀ p, p ∈ l → fs w' !! p = None ∨ ∃ e, deletion_error p e ∈ t)
    ∧ (∀ q, q ∉ l → fs w' !! q = fs w !! q).
Proof.
  revert w. induction l as [|p l IH]; intros w; simpl.
  - exists w, []. rewrite app_nil_r. repeat split; try done.
    by intros ? ?%elem_of_nil.
  - unfold io_bind.
    destruct (delete_file_run p w)
      as (w1 & t1 & -> & _ & _ & Ht1 & Hq1 & Hr1 & Hfs1).
    destruct (IH w1) as (w2 & t2 & -> & Ht2 & Hq2 & Hr2 & Hdel & Hkeep).
    exists w2, (t1 ++ t2). rewrite Ht2, Ht1, <- app_assoc.
    rewrite forallb_app, Hq1, Hq2, removals_app, Hr1, Hr2.
    repeat split; try done.
    + intros p' [->|Hin]%elem_of_cons.
      * destruct Hfs1 as [Hfs1|[_ [e He]]].
        -- destruct (decide (p ∈ l)) as [Hin|Hout].
           ++ destruct (Hdel p Hin) as [?|[e He]]; [by left|].
              right. exists e. apply elem_of_app. by right.
           ++ left. by rewrite (Hkeep p Hout), Hfs1, lookup_delete_eq.
        -- right. exists e. apply elem_of_app. by left.
      * destruct (Hdel p' Hin) as [?|[e He]]; [by left|].
        right. exists e. apply elem_of_app. by right.
    + intros q [Hne Hout]%not_elem_of_cons. rewrite (Hkeep q Hout).
      destruct Hfs1 as [->|[-> _]]; [|done]. by rewrite lookup_delete_ne.
Qed.

(** ** The log of [locate] *)

Lemma cmp_world f1 f2 sh w :
  ∃ c', (Filecmp.cmp f1 f2 sh w).2
        = World (fs w) (tree w) c' (trace w ++ [EvCmp f1 f2 sh]).
Proof.
  unfold Filecmp.cmp, io_bind, log, Filecmp.stat_quiet, lift. simpl.
  destruct (Os.stat_fs (fs w) f1) as [st1|e1]; [|by eauto].
  destruct (Os.stat_fs (fs w) f2) as [st2|e2]; [|by eauto].
  destruct (negb _ || negb _)%bool; [by eauto|].
  destruct (sh && _)%bool; [by eauto|].
  destruct (negb _); [by eauto|].
  unfold Filecmp.cache_get, lift. simpl.
  destruct (cache w !! _) as [o|]; [by eauto|].
  unfold Filecmp._do_cmp, lift. simpl.
  destruct (Filecmp.do_cmp_fs (fs w) f1 f2) as [o|e]; [|by eauto].
  unfold Filecmp.cache_len, lift. simpl.
  destruct (100 <? size (cache w))%nat; simpl; by eauto.
Qed.

(** A bucket that is not empty costs at least one comparison. *)
Lemma locate_loop_logs tgt q l w :
  ∃ c' t, (Absent.locate_loop tgt (q :: l) w).2
          = World (fs w) (tree w) c' (trace w ++ EvCmp tgt q true :: t).
Proof.
  simpl. unfold io_bind.
  destruct (cmp_world tgt q true w) as [c1 E1].
  destruct (Filecmp.cmp tgt q true w) as [[b|e] w1]; simpl in E1; subst w1.
  - set (k := if negb b then _ else _).
    assert (Hk : frames any_event k).
    { unfold k. destruct (negb b); [by apply frames_locate_loop|].
      apply frames_bind; [by apply frames_cmp|intros c2].
      destruct c2; [apply frames_ret|by apply frames_locate_loop]. }
    destruct (Hk (World (fs w) (tree w) c1 (trace w ++ [EvCmp tgt q true])))
      as (c2 & t & -> & _).
    exists c2, t. simpl. by rewrite <- app_assoc.
  - by exists c1, [].
Qed.

Lemma locate_early_exit tgt survey w st :
  Os.stat_fs (fs w) tgt = Ok st →
  default [] (survey !! st_size st) = [] →
  Absent.locate tgt survey w = (Ok None, add_trace w [EvStat tgt]).
Proof.
  intros Hst Hb. unfold Absent.locate, io_bind.
  by rewrite stat_run, Hst, Hb.
Qed.

Lemma locate_no_early_exit tgt survey w st :
  Os.stat_fs (fs w) tgt = Ok st →
  default [] (survey !! st_size st) ≠ [] →
  trace (Absent.locate tgt survey w).2 ≠ trace (add_trace w [EvStat tgt]).
Proof.
  intros Hst Hb. unfold Absent.locate, io_bind. rewrite stat_run, Hst.
  destruct (default [] (survey !! st_size st)) as [|q l]; [done|].
  destruct (locate_loop_logs tgt q l (add_trace w [EvStat tgt]))
    as (c' & t & ->).
  simpl. intros Heq. apply (f_equal length) in Heq.
  rewrite !length_app in Heq. simpl in Heq. lia.
Qed.

(** ** Claims about the size prefilter and the index *)

(** C5: a candidate whose byte length is not a key of the index (the empty
    index included) is answered [None] at once: after the [os.stat] of the
    candidate nothing more is logged, so no shallow and no full comparison
    is made, and the memo table is not touched. *)
Theorem locate_size_prefilter tgt survey w st :
  Os.stat_fs (fs w) tgt = Ok st →
  st_size st ∉ dom survey →
  Absent.locate tgt survey w = (Ok None, add_trace w [EvStat tgt])
  ∧ Absent.locate tgt ∅ w = (Ok None, add_trace w [EvStat tgt]).
Proof.
  intros Hst Hdom. split.
  - apply (locate_early_exit _ _ _ st Hst).
    apply not_elem_of_dom in Hdom. by rewrite Hdom.
  - apply (locate_early_exit _ _ _ st Hst). by rewrite lookup_empty.
Qed.

Lemma locate_size_prefilter_witness :
  Os.stat_fs (fs Scenario.other_size) "cam/D" = Ok (StatResult 33188 7 300)
  ∧ (7 ∉ dom Scenario.five_only)
  ∧ Absent.locate "cam/D" Scenario.five_only Scenario.other_size
    = (Ok None, add_trace Scenario.other_size [EvStat "cam/D"]).
Proof.
  assert (H1 : Os.stat_fs (fs Scenario.other_size) "cam/D"
               = Ok (StatResult 33188 7 300)) by reflexivity.
  assert (H2 : 7 ∉ dom Scenario.five_only).
  { apply not_elem_of_dom. reflexivity. }
  split; [exact H1|]. split; [exact H2|].
  exact (proj1 (locate_size_prefilter "cam/D" Scenario.five_only
                  Scenario.other_size _ H1 H2)).
Defined.

(** C9: every key of the index built by [survey_library] maps to a list
    that is not empty, so [locate] answers [None] without comparing
    anything (its early exit) exactly when the candidate's length is not a
    key of that index. *)
Theorem survey_buckets_never_empty folders w :
  ∃ res w1, Absent.survey_library folders w = (Ok res, w1)
    ∧ (∀ n l, res !! n = Some l → l ≠ [])
    ∧ (∀ tgt st w', Os.stat_fs (fs w') tgt = Ok st →
         (Absent.locate tgt res w' = (Ok None, add_trace w' [EvStat tgt])
          ↔ res !! st_size st = None)).
Proof.
  pose proof (survey_library_run folders w) as Hrun. simpl in Hrun.
  eexists _, _. split; [exact Hrun|].
  set (res := foldl _ _ _).
  assert (Hne : no_empty_bucket res).
  { apply index_no_empty. intros n l. by rewrite lookup_empty. }
  split; [exact Hne|].
  intros tgt st w' Hst. split.
  - intros Hloc. destruct (res !! st_size st) as [l|] eqn:Hl; [|done].
    exfalso. apply (locate_no_early_exit tgt res w' st Hst).
    + rewrite Hl. simpl. by eapply Hne.
    + by rewrite Hloc.
  - intros Hl. apply (locate_early_exit _ _ _ st Hst). by rewrite Hl.
Qed.

(** The index build in terms of the paths the code builds: it returns;
    bucket [n] of the index holds exactly the visited paths
    whose [os.stat] gives length [n], in traversal order; a path whose
    [os.stat] fails is in no bucket and gets the warning
    ["Error stat-ing:" path]; warnings are printed for such paths only.
    The three counters printed at the end are the number of visited files
    (failed ones included), the number of keys of the index, and the
    number of buckets with more than one record. *)
Lemma survey_library_total folders w :
  let ps := walked_all (tree w) folders in
  ∃ res t,
    Absent.survey_library folders w
    = (Ok res,
       add_trace w
         (t ++ [EvPrint [PStr "nFiles:"; PInt (Z.of_nat (length ps))];
                EvPrint [PStr "nLengths:"; PInt (Z.of_nat (size (dom res)))];
                EvPrint [PStr "Lengths with more than 1 file:";
                         PInt (Z.of_nat (length (List.filter crowded
                                                   (map_to_list res))))]]))
    ∧ (∀ n, default [] (res !! n) = List.filter (has_size (fs w) n) ps)
    ∧ (∀ p, stat_warning p ∈ t ↔ p ∈ ps ∧ stat_fails (fs w) p = true)
    ∧ (∀ p, stat_fails (fs w) p = true → ¬ indexed res p)
    ∧ removals t = [].
Proof.
  intros ps. pose proof (survey_library_run folders w) as Hrun.
  simpl in Hrun. fold ps in Hrun.
  set (res := foldl (index_step (fs w)) ∅ ps) in *.
  exists res, (flat_map (folder_events (fs w) (tree w)) folders).
  split; [|split; [|split; [|split]]].
  - rewrite Hrun. unfold summary.
    by rewrite size_dom, count_dups_crowded.
  - intros n. unfold res. by rewrite index_bucket, lookup_empty.
  - intros p. apply warning_in_events.
  - intros p Hf (n & l & Hl & Hp).
    destruct (index_sound _ _ _ _ _ Hl Hp) as [_ Hs].
    unfold has_size in Hs. unfold stat_fails in Hf.
    by destruct (Os.stat_fs (fs w) p).
  - apply survey_events_no_removal.
Qed.

(** C6 fails on the code: the library of [backslash_name] holds one
    regular file, [lib/a\b], which can be stat-ed and read.  The build
    stats [lib/a/b] instead, the path left by [replace], so the file gets
    no record and the warning names a path that is not the file's.  In
    [backslash_clash], where [lib/a/b] exists too, that other file is
    recorded twice, [lib/a\b] is not recorded, and nothing is reported. *)
Theorem backslash_name_is_not_indexed :
  Os.stat_fs (fs MoreScenario.backslash_name) "lib/a\b"
    = Ok (StatResult 33188 5 100)
  ∧ Os.read_fs (fs MoreScenario.backslash_name) "lib/a\b" = Ok "xxxxx"
  ∧ Absent.survey_library ["lib"] MoreScenario.backslash_name
    = (Ok ∅,
       add_trace MoreScenario.backslash_name
         [EvWalk "lib"; EvStat "lib/a/b";
          EvPrint [PStr "Error stat-ing:"; PStr "lib/a/b"];
          EvPrint [PStr "nFiles:"; PInt 1];
          EvPrint [PStr "nLengths:"; PInt 0];
          EvPrint [PStr "Lengths with more than 1 file:"; PInt 0]])
  ∧ Os.stat_fs (fs MoreScenario.backslash_clash) "lib/a\b"
    = Ok (StatResult 33188 5 100)
  ∧ Os.read_fs (fs MoreScenario.backslash_clash) "lib/a\b" = Ok "xxxxx"
  ∧ Absent.survey_library ["lib"] MoreScenario.backslash_clash
    = (Ok (<[3 := ["lib/a/b"; "lib/a/b"]]> ∅),
       add_trace MoreScenario.backslash_clash
         [EvWalk "lib"; EvStat "lib/a/b"; EvStat "lib/a/b";
          EvPrint [PStr "nFiles:"; PInt 2];
          EvPrint [PStr "nLengths:"; PInt 1];
          EvPrint [PStr "Lengths with more than 1 file:"; PInt 1]]).
Proof. repeat split; vm_compute; reflexivity. Qed.

(** ** Exactness of the resolver *)

Lemma identical_same_size m a b sa sb :
  identical m a b → Os.stat_fs m a = Ok sa → Os.stat_fs m b = Ok sb →
  st_size sa = st_size sb.
Proof.
  intros (d & (fa & Ha & _ & ->)%content_inv & (fb & Hb & _ & Hd)%content_inv).
  unfold Os.stat_fs. rewrite Ha, Hb.
  destruct (f_statable fa), (f_statable fb); try done.
  intros [= <-] [= <-]. simpl. by rewrite Hd.
Qed.

Lemma bucket_indexed (survey : gmap Z (list string)) n p :
  p ∈ default [] (survey !! n) → indexed survey p.
Proof.
  destruct (survey !! n) as [l|] eqn:Hl; simpl.
  - intros Hp. by exists n, l.
  - by intros ?%elem_of_nil.
Qed.

(** The index being the one [survey_library] builds on the current
    file system, whenever [locate] returns, it returns a path (not [None])
    if and only if some indexed library file is a regular file with
    exactly the candidate's bytes, and the path returned is such a file:
    a record that only passes the shallow check is never returned.
    [locate] fails to return only by raising the error of reading the
    candidate or one of the indexed files. *)
Lemma locate_exact folders tgt w :
  coherent w →
  ∃ survey w1, Absent.survey_library folders w = (Ok survey, w1) ∧
    match (Absent.locate tgt survey w1).1 with
    | Ok found =>
        (is_Some found ↔ ∃ p, indexed survey p ∧ identical (fs w) tgt p)
        ∧ (∀ p, found = Some p → indexed survey p ∧ identical (fs w) tgt p)
    | Raise e =>
        ∃ q, (q = tgt ∨ indexed survey q) ∧ Os.read_fs (fs w) q = Raise e
    end.
Proof.
  intros Hc. pose proof (survey_library_run folders w) as Hrun.
  simpl in Hrun. eexists _, _. split; [exact Hrun|].
  set (res := foldl _ _ _). set (w1 := add_trace w _).
  assert (Hc1 : coherent w1) by exact Hc.
  destruct (locate_run tgt res w1 Hc1) as (c' & t & -> & _). simpl.
  unfold locate_fs.
  destruct (Os.stat_fs (fs w) tgt) as [st|e] eqn:Hst.
  - destruct (locate_loop_fs (fs w) tgt (default [] (res !! st_size st)))
      as [[p|]|e] eqn:Hl.
    + apply locate_loop_fs_some in Hl as [Hp Hid].
      apply bucket_indexed in Hp.
      split; [split; [by eauto|by eauto]|]. by intros ? [= <-].
    + split; [|done]. split; [by intros [? ?]|].
      intros (p & (n & l & Hn & Hp) & Hid). exfalso.
      destruct (index_sound _ _ _ _ _ Hn Hp) as [_ Hs].
      apply has_size_stat in Hs as (sp & Hsp & <-).
      rewrite (identical_same_size _ _ _ _ _ Hid Hst Hsp), Hn in Hl.
      by apply (locate_loop_fs_none _ _ _ Hl p).
    + apply locate_loop_fs_raise in Hl as (q & [->|Hq] & Hr).
      * exists tgt. by split; [left|].
      * exists q. split; [right; by eapply bucket_indexed|done].
  - exists tgt. split; [by left|by apply stat_raise_read].
Qed.

(** In [collision], where every file can be read, the index is
    [collision_index] and [locate] answers [cam/C] with [lib/B]. *)
Example collision_survey :
  (Absent.survey_library ["lib"] Scenario.collision).1
  = Ok Scenario.collision_index.
Proof. vm_compute. reflexivity. Qed.

Example collision_locate :
  (Absent.locate "cam/C" Scenario.collision_index
     (Absent.survey_library ["lib"] Scenario.collision).2).1
  = Ok (Some "lib/B").
Proof. vm_compute. reflexivity. Qed.

(** C3 fails on the code: in [locked_record] the index lists [lib/A] and
    then [lib/B]; [lib/B] is a regular file with exactly the bytes of
    the candidate [cam/C], but [lib/A], of the same length, cannot be
    opened.  [locate] does not return [lib/B]: the [PermissionError] of
    comparing with [lib/A] ends it, so an identical library file exists
    and no match is returned. *)
Theorem locked_record_hides_copy :
  (Absent.survey_library ["lib"] MoreScenario.locked_record).1
    = Ok Scenario.collision_index
  ∧ coherent MoreScenario.locked_record
  ∧ (Absent.locate "cam/C" Scenario.collision_index
       (Absent.survey_library ["lib"] MoreScenario.locked_record).2).1
    = Raise (PermissionError "lib/A")
  ∧ indexed Scenario.collision_index "lib/B"
  ∧ identical (fs MoreScenario.locked_record) "cam/C" "lib/B".
Proof.
  split; [vm_compute; reflexivity|].
  split; [apply (bool_decide_unpack _); vm_compute; exact I|].
  split; [vm_compute; reflexivity|].
  split.
  - exists 10, ["lib/A"; "lib/B"]. split; [reflexivity|]. right. by left.
  - by exists "bbbbbbbbbb".
Qed.

(** ** Scan order *)

Lemma probes_app t1 t2 : probes (t1 ++ t2) = probes t1 ++ probes t2.
Proof. apply omap_app. Qed.




(** ** Determinism *)

(** C8: on a file system that does not change, resolving the same
    candidate against the same index a second time gives the result of
    the first time, whatever the first run left in the memo table of
    [filecmp]; the first run changes no file; and any run that starts
    from the same files gives that same result. *)
Theorem locate_deterministic tgt survey w :
  coherent w →
  let first := Absent.locate tgt survey w in
  let second := Absent.locate tgt survey first.2 in
  second.1 = first.1
  ∧ fs first.2 = fs w
  ∧ (∀ w', coherent w' → fs w' = fs w →
       (Absent.locate tgt survey w').1 = first.1).
Proof.
  intros Hc first second. unfold second, first.
  destruct (locate_run tgt survey w Hc) as (c1 & t1 & -> & Hc1 & _). simpl.
  split; [|split; [done|]].
  - destruct (locate_run tgt survey
                (World (fs w) (tree w) c1 (trace w ++ EvStat tgt :: t1)) Hc1)
      as (c2 & t2 & -> & _). done.
  - intros w' Hc' Hfs.
    destruct (locate_run tgt survey w' Hc') as (c2 & t2 & -> & _). simpl.
    by rewrite Hfs.
Qed.

Lemma locate_deterministic_witness :
  coherent Scenario.collision
  ∧ (Absent.locate "cam/C" Scenario.collision_index
       (Absent.locate "cam/C" Scenario.collision_index
          Scenario.collision).2).1
    = (Absent.locate "cam/C" Scenario.collision_index Scenario.collision).1.
Proof.
  assert (Hc : coherent Scenario.collision).
  { apply (bool_decide_unpack _). vm_compute. exact I. }
  split; [exact Hc|].
  exact (proj1 (locate_deterministic "cam/C" Scenario.collision_index
                  Scenario.collision Hc)).
Defined.

(** ** The partition of the candidates *)

Lemma classifies_nil m surveyed s : classifies m surveyed [] s s.
Proof. unfold classifies. simpl. rewrite !app_nil_r. split; [done|]. split; [done|lia]. Qed.

Lemma classifies_app m surveyed ps1 ps2 s0 s1 s2 :
  classifies m surveyed ps1 s0 s1 → classifies m surveyed ps2 s1 s2 →
  classifies m surveyed (ps1 ++ ps2) s0 s2.
Proof.
  unfold classifies. intros (N1 & A1 & C1) (N2 & A2 & C2).
  rewrite N2, N1, A2, A1, C2, C1, !List.filter_app, length_app, <- !app_assoc.
  split; [done|]. split; [done|lia].
Qed.

Lemma scan_file_classifies surveyed d b s w s' w' :
  coherent w →
  Absent.scan_file surveyed d b s w = (Ok s', w') →
  classifies (fs w) surveyed [fpath_of d b] s s'
  ∧ coherent w' ∧ fs w' = fs w ∧ tree w' = tree w.
Proof.
  intros Hc. unfold Absent.scan_file, io_bind. fold (fpath_of d b).
  destruct (locate_run (fpath_of d b) surveyed w Hc) as (c' & t & -> & Hc' & _).
  unfold classifies, unmatched, matched. simpl.
  destruct (locate_fs (fs w) (fpath_of d b) surveyed) as [found|e]; [|done].
  destruct (Absent.found_truthy found); simpl; unfold io_ret;
    intros [= <- <-]; simpl; by rewrite app_nil_r.
Qed.

Lemma for_in_classifies {A} (body : A → Absent.scan → io Absent.scan)
    (items : A → list string) surveyed m tr :
  (∀ x s w s' w', coherent w → fs w = m → tree w = tr →
     body x s w = (Ok s', w') →
     classifies m surveyed (items x) s s'
     ∧ coherent w' ∧ fs w' = m ∧ tree w' = tr) →
  ∀ l s w s' w', coherent w → fs w = m → tree w = tr →
    for_in l body s w = (Ok s', w') →
    classifies m surveyed (flat_map items l) s s'
    ∧ coherent w' ∧ fs w' = m ∧ tree w' = tr.
Proof.
  intros Hbody l. induction l as [|x l IH]; intros s w s' w' Hc Hm Ht; simpl.
  - unfold io_ret. intros [= <- <-]. split; [apply classifies_nil|done].
  - unfold io_bind.
    destruct (body x s w) as [[s1|e] w1] eqn:Hx; [|done].
    destruct (Hbody _ _ _ _ _ Hc Hm Ht Hx) as (Hcl1 & Hc1 & Hm1 & Ht1).
    intros Hl. destruct (IH _ _ _ _ Hc1 Hm1 Ht1 Hl) as (Hcl2 & Hc2 & Hm2 & Ht2).
    split; [by eapply classifies_app|done].
Qed.

Lemma located_matched w surveyed p :
  coherent w → located w surveyed p = matched (fs w) surveyed p.
Proof.
  intros Hc. unfold located, matched.
  by destruct (locate_run p surveyed w Hc) as (c' & t & -> & _).
Qed.

(** When the scan of the camera returns, it has split the visited paths
    in traversal order: the matched ones, and the others. *)
Lemma resolve_all_partition camera surveyed w s w2 :
  coherent w →
  Absent.resolve_all camera surveyed w = (Ok s, w2) →
  Absent.not_needed s
    = List.filter (matched (fs w) surveyed) (walked (tree w) camera)
  ∧ Absent.absent s
    = List.filter (unmatched (fs w) surveyed) (walked (tree w) camera)
  ∧ Absent.cnt s = Z.of_nat (length (walked (tree w) camera)).
Proof.
  intros Hc. unfold Absent.resolve_all, io_bind. rewrite walk_run.
  intros Hrun.
  assert (Hc1 : coherent (add_trace w [EvWalk camera])) by exact Hc.
  eapply (for_in_classifies _ dir_paths surveyed (fs w) (tree w)) in Hrun;
    [|clear Hrun|exact Hc1|done|done].
  - destruct Hrun as ((N & A & C) & _). simpl in N, A, C.
    unfold walked. by rewrite N, A, C.
  - intros entry s0 w0 s0' w0' Hc0 Hm0 Ht0 Hdir. unfold Absent.scan_dir in Hdir.
    eapply (for_in_classifies _ (λ b, [fpath_of entry.1 b]) surveyed
              (fs w) (tree w)) in Hdir; [|clear Hdir|exact Hc0|done|done].
    + unfold dir_paths. by rewrite flat_map_singleton in Hdir.
    + intros b s1 w1 s1' w1' Hc1' Hm1 Ht1 Hfile.
      destruct (scan_file_classifies _ _ _ _ _ _ _ Hc1' Hfile)
        as (Hcl & Hc2 & Hm2 & Ht2).
      rewrite Hm1 in Hcl, Hm2. rewrite Ht1 in Ht2. done.
Qed.

(** ** Deletion *)

Lemma remove_fs_ok m p m' : remove_fs m p = Ok m' → m' = delete p m.
Proof.
  unfold remove_fs. destruct (m !! p) as [f|]; [|done].
  destruct (f_statable f && f_removable f)%bool; [|done]. by intros [= <-].
Qed.

Lemma remove_fs_other m q p : q ≠ p → remove_fs (delete q m) p
  = match remove_fs m p with
    | Ok _ => Ok (delete p (delete q m))
    | Raise e => Raise e
    end.
Proof.
  intros Hne. unfold remove_fs. rewrite lookup_delete_ne by done.
  destruct (m !! p) as [f|]; [|done].
  by destruct (f_statable f && f_removable f)%bool.
Qed.

Lemma deletions_log m l :
  removals (deletions m l).1 = l ∧ forallb not_probe (deletions m l).1 = true.
Proof.
  revert m. induction l as [|p l IH]; intros m; simpl; [done|].
  destruct (remove_fs m p) as [m'|e]; simpl.
  - destruct (IH m') as [Hr Hq]. unfold removals in *. simpl.
    by rewrite Hr, Hq.
  - destruct (IH m) as [Hr Hq]. unfold removals in *. simpl.
    by rewrite Hr, Hq.
Qed.

Lemma deletions_gone m l p :
  m !! p = None → (deletions m l).2 !! p = None.
Proof.
  revert m. induction l as [|q l IH]; intros m Hp; simpl; [done|].
  destruct (remove_fs m q) as [m'|e] eqn:Hq; simpl; [|by apply IH].
  apply IH. rewrite (remove_fs_ok _ _ _ Hq).
  destruct (decide (q = p)) as [->|Hne];
    [apply lookup_delete_eq|by rewrite lookup_delete_ne].
Qed.

(** A file that [os.remove] can remove is gone after the loop. *)
Lemma deletions_removed m l p m0 :
  p ∈ l → remove_fs m p = Ok m0 → (deletions m l).2 !! p = None.
Proof.
  revert m m0. induction l as [|q l IH]; intros m m0 Hin Hrm; simpl.
  { by apply elem_of_nil in Hin. }
  destruct (decide (q = p)) as [->|Hne].
  - rewrite Hrm. simpl. apply deletions_gone.
    rewrite (remove_fs_ok _ _ _ Hrm). apply lookup_delete_eq.
  - apply elem_of_cons in Hin as [->|Hin]; [done|].
    destruct (remove_fs m q) as [m'|e] eqn:Hq; simpl; [|by eapply IH].
    rewrite (remove_fs_ok _ _ _ Hq).
    eapply IH; [done|]. by rewrite remove_fs_other, Hrm.
Qed.

(** A file that [os.remove] cannot remove is left as it is, and the
    failure is reported. *)
Lemma deletions_kept m l p e :
  remove_fs m p = Raise e → (deletions m l).2 !! p = m !! p.
Proof.
  revert m. induction l as [|q l IH]; intros m Hrm; simpl; [done|].
  destruct (remove_fs m q) as [m'|e'] eqn:Hq; simpl; [|by apply IH].
  rewrite (remove_fs_ok _ _ _ Hq).
  destruct (decide (q = p)) as [->|Hne]; [congruence|].
  rewrite IH; [by rewrite lookup_delete_ne|].
  by rewrite remove_fs_other, Hrm.
Qed.

Lemma deletions_reported m l p e :
  p ∈ l → remove_fs m p = Raise e → deletion_error p e ∈ (deletions m l).1.
Proof.
  revert m. induction l as [|q l IH]; intros m Hin Hrm; simpl.
  { by apply elem_of_nil in Hin. }
  destruct (decide (q = p)) as [->|Hne].
  - rewrite Hrm. simpl. do 2 right. by left.
  - apply elem_of_cons in Hin as [->|Hin]; [done|].
    destruct (remove_fs m q) as [m'|e'] eqn:Hq; simpl.
    + do 2 right. rewrite (remove_fs_ok _ _ _ Hq).
      apply IH; [done|]. by rewrite remove_fs_other, Hrm.
    + do 3 right. by apply IH.
Qed.

(** With no path twice in the list, only failures are reported. *)
Lemma deletions_only_failures m l p e :
  NoDup l → deletion_error p e ∈ (deletions m l).1 →
  p ∈ l ∧ remove_fs m p = Raise e.
Proof.
  intros Hnd. revert m. induction Hnd as [|q l Hq Hnd IH]; intros m; simpl.
  { by intros ?%elem_of_nil. }
  destruct (remove_fs m q) as [m'|e'] eqn:Hrm; simpl.
  - intros [[=]|[[=]|Hin]%elem_of_cons]%elem_of_cons.
    rewrite (remove_fs_ok _ _ _ Hrm) in Hin.
    destruct (IH _ Hin) as [Hp Hr]. split; [by right|].
    assert (q ≠ p) by by intros ->.
    rewrite remove_fs_other in Hr by done.
    by destruct (remove_fs m p).
  - intros [[=]|[[=]|[[= <- <-]|Hin]%elem_of_cons]%elem_of_cons]%elem_of_cons.
    + split; [by left|done].
    + destruct (IH _ Hin) as [Hp Hr]. split; [by right|done].
Qed.

Lemma report_no_removal s : removals (report_events s) = [].
Proof.
  unfold report_events, removals. simpl. rewrite omap_app. simpl.
  rewrite app_nil_r. by induction (PyStr.sorted (Absent.absent s)).
Qed.

(** ** A [print] that can raise

    The run of [AbsentOut.main] against the run of [Absent.main], in
    which every line is written. *)

Lemma main_on_print camera libs rmdups :
  AbsentOut.main Os.print camera libs rmdups = Absent.main camera libs rmdups.
Proof. reflexivity. Qed.


Section Refusals.
Context (pr : list pyval → io unit) (Hpr : print_like pr).

Lemma same_refl {A} (c : io A) : same_or_refused pr c c.
Proof. intros w. by left. Qed.

Lemma same_bind {A B} (c' c : io A) (k' k : A → io B) :
  same_or_refused pr c' c → (∀ a, same_or_refused pr (k' a) (k a)) →
  same_or_refused pr (io_bind c' k') (io_bind c k).
Proof.
  intros Hc Hk w. unfold io_bind.
  destruct (Hc w) as [->|(e & w' & -> & He)]; [|right; by eauto].
  destruct (c w) as [[a|e] w1]; [apply Hk|by left].
Qed.

Lemma same_for_in {A S} (l : list A) (body' body : A → S → io S) s :
  (∀ x s', same_or_refused pr (body' x s') (body x s')) →
  same_or_refused pr (for_in l body' s) (for_in l body s).
Proof.
  intros Hb. revert s. induction l as [|x l IH]; intros s; simpl.
  - apply same_refl.
  - apply same_bind; [apply Hb|done].
Qed.

(** Nothing is printed inside a [try]: only the handlers differ. *)
Lemma same_try_except {A} (c : io A) classes (h' h : exn → io A) :
  (∀ e, same_or_refused pr (h' e) (h e)) →
  same_or_refused pr (try_except c classes h') (try_except c classes h).
Proof.
  intros Hh w. unfold try_except.
  destruct (c w) as [[a|e] w1]; [by left|].
  destruct (existsb (isinstance e) classes); [apply Hh|by left].
Qed.

Lemma same_print args : same_or_refused pr (pr args) (Os.print args).
Proof.
  intros w. destruct (Hpr args w) as [->|[e He]]; [by left|].
  right. exists e, w. split; [done|]. by exists args, w.
Qed.

Lemma same_survey_library folders :
  same_or_refused pr (AbsentOut.survey_library pr folders)
    (Absent.survey_library folders).
Proof.
  unfold AbsentOut.survey_library, Absent.survey_library.
  apply same_bind.
  - apply same_for_in. intros folder st.
    unfold AbsentOut.survey_folder, Absent.survey_folder.
    apply same_bind; [apply same_refl|intros entries].
    apply same_for_in. intros entry st'.
    unfold AbsentOut.survey_dir, Absent.survey_dir.
    apply same_for_in. intros fname st''.
    unfold AbsentOut.survey_file, Absent.survey_file.
    apply same_bind; [|intros res; apply same_refl].
    apply same_try_except. intros e.
    apply same_bind; [apply same_print|intros _; apply same_refl].
  - intros st. repeat (apply same_bind; [apply same_print|intros _]).
    apply same_refl.
Qed.

Lemma same_resolve_all camera surveyed :
  same_or_refused pr (AbsentOut.resolve_all pr camera surveyed)
    (Absent.resolve_all camera surveyed).
Proof.
  unfold AbsentOut.resolve_all, Absent.resolve_all.
  apply same_bind; [apply same_refl|intros entries].
  apply same_for_in. intros entry s.
  unfold AbsentOut.scan_dir, Absent.scan_dir.
  apply same_for_in. intros fname s'.
  unfold AbsentOut.scan_file, Absent.scan_file.
  apply same_bind; [apply same_refl|intros found].
  destruct (Absent.found_truthy found); [|apply same_refl].
  apply same_bind; [apply same_print|intros _; apply same_refl].
Qed.

Lemma same_report s :
  same_or_refused pr (AbsentOut.report pr s) (Absent.report s).
Proof.
  unfold AbsentOut.report, Absent.report.
  apply same_bind; [apply same_print|intros _].
  apply same_bind; [|intros _; apply same_print].
  apply same_for_in. intros p []. apply same_print.
Qed.



Lemma frames_pr P args : P (EvPrint args) = true → frames P (pr args).
Proof.
  intros HP w. destruct (Hpr args w) as [->|[e ->]].
  - by apply frames_log.
  - exists (cache w), []. simpl. rewrite app_nil_r. by destruct w.
Qed.

Lemma frames_out_survey_library folders :
  frames not_remove (AbsentOut.survey_library pr folders).
Proof.
  unfold AbsentOut.survey_library.
  apply frames_bind.
  - apply frames_for_in. intros folder st. unfold AbsentOut.survey_folder.
    apply frames_bind; [|intros entries].
    { unfold Os.walk.
      apply frames_bind; [by apply frames_log|intros _; apply frames_lift]. }
    apply frames_for_in. intros entry st'. unfold AbsentOut.survey_dir.
    apply frames_for_in. intros fname st''. unfold AbsentOut.survey_file.
    apply frames_bind; [|intros res; apply frames_ret].
    apply frames_try_except.
    + apply frames_bind; [|intros st_; apply frames_ret]. unfold Os.stat.
      apply frames_bind; [by apply frames_log|intros _; apply frames_lift].
    + intros e. apply frames_bind; [by apply frames_pr|].
      intros _. apply frames_ret.
  - intros st. repeat (apply frames_bind; [by apply frames_pr|intros _]).
    apply frames_ret.
Qed.

Lemma frames_out_resolve_all camera surveyed :
  frames not_remove (AbsentOut.resolve_all pr camera surveyed).
Proof.
  unfold AbsentOut.resolve_all, Os.walk.
  apply frames_bind; [|intros entries].
  { apply frames_bind; [by apply frames_log|intros _; apply frames_lift]. }
  apply frames_for_in. intros entry s. unfold AbsentOut.scan_dir.
  apply frames_for_in. intros fname s'. unfold AbsentOut.scan_file.
  apply frames_bind; [by apply frames_locate|intros found].
  destruct (Absent.found_truthy found); [|apply frames_ret].
  apply frames_bind; [by apply frames_pr|intros _; apply frames_ret].
Qed.

Lemma frames_out_report s : frames not_remove (AbsentOut.report pr s).
Proof.
  unfold AbsentOut.report.
  apply frames_bind; [by apply frames_pr|intros _].
  apply frames_bind; [|intros _; by apply frames_pr].
  apply frames_for_in. intros p []. by apply frames_pr.
Qed.

(** One pass of the deletion loop: as when every line is written, or
    [print] raised on the "Deleting:" line, before [os.remove], or it
    raised in the handler, on the line that reports a failed removal. *)
Lemma delete_file_out p w :
  AbsentOut.delete_file pr p tt w = Absent.delete_file p tt w
  ∨ (∃ e, AbsentOut.delete_file pr p tt w = (Raise e, w) ∧ refused pr e)
  ∨ (∃ e e0,
       AbsentOut.delete_file pr p tt w
       = (Raise e, add_trace w [deleting p; EvRemove p])
       ∧ refused pr e ∧ remove_fs (fs w) p = Raise e0).
Proof.
  unfold AbsentOut.delete_file, Absent.delete_file, io_bind.
  destruct (Hpr [PStr "Deleting:"; PStr p] w) as [->|[e He]].
  2:{ right. left. exists e. rewrite He. split; [done|]. by eexists _, _. }
  rewrite print_run. unfold try_except, Os.remove, io_bind, remove_fs. simpl.
  destruct (fs w !! p) as [f|] eqn:Hp.
  - destruct (f_statable f && f_removable f)%bool eqn:Hf; simpl; [by left|].
    match goal with |- context [pr ?a ?w1] =>
      destruct (Hpr a w1) as [->|[e He]] end; [by left|].
    right. right. exists e, (PermissionError p). rewrite He.
    split; [|split; [by eexists _, _|done]].
    unfold add_trace. simpl. by rewrite <- app_assoc.
  - match goal with |- context [pr ?a ?w1] =>
      destruct (Hpr a w1) as [->|[e He]] end; [by left|].
    right. right. exists e, (FileNotFoundError p). rewrite He.
    split; [|split; [by eexists _, _|done]].
    unfold add_trace. simpl. by rewrite <- app_assoc.
Qed.

(** The deletion loop ends early only with an exception of [print];
    an exception of [os.remove] never ends it. *)
Lemma delete_loop_out l w :
  ∃ r w' t,
    for_in l (AbsentOut.delete_file pr) tt w = (r, w')
    ∧ trace w' = trace w ++ t ∧ forallb not_probe t = true
    ∧ fs w' = (deletions (fs w) (removals t)).2
    ∧ match r with
      | Ok _ => t = (deletions (fs w) l).1
      | Raise e => refused pr e ∧ ∃ rest, l = removals t ++ rest
      end.
Proof.
  revert w. induction l as [|p l IH]; intros w; simpl.
  { exists (Ok tt), w, []. by rewrite app_nil_r. }
  unfold io_bind.
  destruct (delete_file_out p w)
    as [->|[(e & -> & He)|(e & e0 & -> & He & Hr)]].
  - rewrite delete_file_eval.
    destruct (remove_fs (fs w) p) as [m'|e] eqn:Hrm.
    + destruct (IH (World m' (tree w) (cache w)
                      (trace w ++ [deleting p; EvRemove p])))
        as (r & w' & t & -> & Ht & Hq & Hfs & Hm).
      exists r, w', (deleting p :: EvRemove p :: t).
      change (removals (deleting p :: EvRemove p :: t))
        with (p :: removals t).
      simpl in *. rewrite Hrm. simpl.
      split; [done|]. split; [by rewrite Ht, <- app_assoc|].
      split; [done|]. split; [done|]. destruct r as [u|e].
      * by rewrite Hm.
      * destruct Hm as [Hre [rest ->]]. split; [done|]. by exists rest.
    + destruct (IH (add_trace w [deleting p; EvRemove p; deletion_error p e]))
        as (r & w' & t & -> & Ht & Hq & Hfs & Hm).
      exists r, w', (deleting p :: EvRemove p :: deletion_error p e :: t).
      change (removals (deleting p :: EvRemove p :: deletion_error p e :: t))
        with (p :: removals t).
      simpl in *. rewrite Hrm. simpl.
      split; [done|]. split; [by rewrite Ht, <- app_assoc|].
      split; [done|]. split; [done|]. destruct r as [u|e'].
      * by rewrite Hm.
      * destruct Hm as [Hre [rest ->]]. split; [done|]. by exists rest.
  - exists (Raise e), w, []. rewrite app_nil_r.
    repeat split; try done. by exists (p :: l).
  - exists (Raise e), (add_trace w [deleting p; EvRemove p]),
      [deleting p; EvRemove p].
    change (removals [deleting p; EvRemove p]) with [p].
    simpl. rewrite Hr. simpl.
    repeat split; try done. by exists l.
Qed.

End Refusals.

(** ** Deletion comes after resolution *)

(** C7: [print] may raise on any line.  With [rmdups], whatever the run
    does, its log splits in two: a first part with no [os.remove], and a
    second part with no walk, stat or comparison, so every removal comes
    after the whole of the index build and the resolution.  The paths
    handed to [os.remove] are the matched candidates (the visited camera
    paths that [locate], run on the initial state, answers with a path),
    in order, from the first one on; a run that hands none to
    [os.remove] leaves every file as it was.  If the run returns, every
    matched candidate has been handed to [os.remove]; one that
    [os.remove] can remove is gone at the end; one for which [os.remove]
    raises is still there and has an "Error in deletion" line with that
    exception; and when no candidate is matched twice, these are the
    only such lines.  If the run ends with an exception once the
    deletion loop has started, the exception is one of [print]: an
    exception of [os.remove] never ends the loop. *)
Theorem rmdups_after_resolution pr camera libs w :
  print_like pr → coherent w →
  let M := List.filter (located w (index_of libs w))
             (walked (tree w) camera) in
  ∃ r w3 t1 t2,
    AbsentOut.main pr camera libs true w = (r, w3)
    ∧ trace w3 = trace w ++ t1 ++ t2
    ∧ removals t1 = [] ∧ forallb not_probe t2 = true
    ∧ (∃ rest, M = removals t2 ++ rest)
    ∧ (removals t2 = [] → fs w3 = fs w)
    ∧ match r with
      | Ok _ =>
          removals t2 = M
          ∧ (∀ p, p ∈ M →
               match remove_fs (fs w) p with
               | Ok _ => fs w3 !! p = None
               | Raise e =>
                   fs w3 !! p = fs w !! p ∧ deletion_error p e ∈ t2
               end)
          ∧ (NoDup M →
             ∀ p e, deletion_error p e ∈ t2 →
               p ∈ M ∧ remove_fs (fs w) p = Raise e)
      | Raise e => refused pr e ∨ t2 = []
      end.
Proof.
  intros Hpr Hc M.
  assert (Hquiet : ∀ (r : result unit) w' t,
    AbsentOut.main pr camera libs true w = (r, w') →
    trace w' = trace w ++ t → removals t = [] → fs w' = fs w →
    (∀ u, r ≠ Ok u) →
    ∃ r w3 t1 t2,
      AbsentOut.main pr camera libs true w = (r, w3)
      ∧ trace w3 = trace w ++ t1 ++ t2
      ∧ removals t1 = [] ∧ forallb not_probe t2 = true
      ∧ (∃ rest, M = removals t2 ++ rest)
      ∧ (removals t2 = [] → fs w3 = fs w)
      ∧ match r with
        | Ok _ =>
            removals t2 = M
            ∧ (∀ p, p ∈ M →
                 match remove_fs (fs w) p with
                 | Ok _ => fs w3 !! p = None
                 | Raise e =>
                     fs w3 !! p = fs w !! p ∧ deletion_error p e ∈ t2
                 end)
            ∧ (NoDup M →
               ∀ p e, deletion_error p e ∈ t2 →
                 p ∈ M ∧ remove_fs (fs w) p = Raise e)
        | Raise e => refused pr e ∨ t2 = []
        end).
  { intros r w' t Hrun Ht Hq Hfs Hr. exists r, w', t, [].
    rewrite app_nil_r. split; [done|]. split; [done|].
    split; [done|]. split; [done|].
    split; [by exists M|]. split; [done|].
    destruct r as [u|e]; [by destruct (Hr u)|by right]. }
  pose proof (survey_library_run libs w) as Hrun. simpl in Hrun.
  set (res := foldl _ _ _) in Hrun. set (tsurvey := _ ++ _) in Hrun.
  assert (Hres : index_of libs w = res).
  { unfold index_of. by rewrite Hrun. }
  assert (Hsurvey : removals tsurvey = []).
  { unfold tsurvey. by rewrite removals_app, survey_events_no_removal. }
  (* the index build *)
  destruct (frames_out_survey_library pr Hpr libs w) as (c1 & ts & Hw1 & Hts).
  destruct (same_survey_library pr Hpr libs w)
    as [Hs|(e & w' & Hs & He)].
  2:{ rewrite Hs in Hw1. simpl in Hw1. subst w'.
      eapply (Hquiet (Raise e) _ ts).
      - unfold AbsentOut.main, io_bind. by rewrite Hs.
      - done.
      - by apply removals_not_remove.
      - done.
      - done. }
  rewrite Hrun in Hs. clear Hw1 Hts c1 ts.
  (* the resolution *)
  set (w1 := add_trace w tsurvey) in *.
  assert (Hc1 : coherent w1) by exact Hc.
  destruct (frames_out_resolve_all pr Hpr camera res w1)
    as (c2 & t2 & Hw2 & Ht2).
  destruct (same_resolve_all pr Hpr camera res w1)
    as [Hr|(e & w' & Hr & He)].
  2:{ rewrite Hr in Hw2. simpl in Hw2. subst w'.
      eapply (Hquiet (Raise e) _ (tsurvey ++ t2)).
      - unfold AbsentOut.main, io_bind. by rewrite Hs, Hr.
      - simpl. by rewrite app_assoc.
      - by rewrite removals_app, Hsurvey, (removals_not_remove _ Ht2).
      - done.
      - done. }
  destruct (Absent.resolve_all camera res w1) as [[s|e] w2] eqn:Hres2.
  2:{ rewrite Hr in Hw2. simpl in Hw2. subst w2.
      eapply (Hquiet (Raise e) _ (tsurvey ++ t2)).
      - unfold AbsentOut.main, io_bind. by rewrite Hs, Hr.
      - simpl. by rewrite app_assoc.
      - by rewrite removals_app, Hsurvey, (removals_not_remove _ Ht2).
      - done.
      - done. }
  rewrite Hr in Hw2. simpl in Hw2. subst w2.
  assert (HM : Absent.not_needed s = M).
  { rewrite (proj1 (resolve_all_partition _ _ _ _ _ Hc1 Hres2)).
    unfold M. rewrite Hres. apply List.filter_ext. intros p. symmetry.
    exact (located_matched w res p Hc). }
  (* the report *)
  set (w2 := World (fs w) (tree w) c2 (trace w ++ tsurvey ++ t2)).
  rewrite <- app_assoc in Hr. fold w2 in Hr.
  destruct (frames_out_report pr Hpr s w2) as (c3 & t3 & Hw3 & Ht3).
  destruct (same_report pr Hpr s w2) as [Hp|(e & w' & Hp & He)].
  2:{ rewrite Hp in Hw3. simpl in Hw3. subst w'.
      eapply (Hquiet (Raise e) _ ((tsurvey ++ t2) ++ t3)).
      - unfold AbsentOut.main, io_bind. by rewrite Hs, Hr, Hp.
      - simpl. by rewrite <- !app_assoc.
      - by rewrite !removals_app, Hsurvey, (removals_not_remove _ Ht2),
          (removals_not_remove _ Ht3).
      - done.
      - done. }
  rewrite report_run in Hp. clear Hw3 Ht3 c3 t3.
  (* the deletion loop *)
  destruct (delete_loop_out pr Hpr (Absent.not_needed s)
              (add_trace w2 (report_events s)))
    as (r & w3 & t & Hloop & Htr & Hq & Hfs & Hm).
  exists r, w3, (tsurvey ++ t2 ++ report_events s), t.
  split. { unfold AbsentOut.main, io_bind. by rewrite Hs, Hr, Hp. }
  split. { rewrite Htr. simpl. by rewrite <- !app_assoc. }
  split.
  { rewrite !removals_app, report_no_removal, app_nil_r.
    by rewrite Hsurvey, (removals_not_remove _ Ht2). }
  split; [done|]. rewrite HM in Hm. simpl in Hm, Hfs.
  assert (Hnone : removals t = [] → fs w3 = fs w).
  { intros Hnil. by rewrite Hfs, Hnil. }
  destruct r as [u|e].
  - subst t.
    destruct (deletions_log (fs w) M) as [Hrem _].
    split; [exists []; by rewrite app_nil_r|].
    split; [done|]. rewrite Hrem in Hfs.
    split; [done|]. split.
    + intros p Hin. rewrite Hfs.
      destruct (remove_fs (fs w) p) as [m0|e] eqn:Hrm.
      * by eapply deletions_removed.
      * split; [by eapply deletions_kept|by apply deletions_reported].
    + intros Hnd p e. by apply deletions_only_failures.
  - destruct Hm as [He Hrest]. split; [done|]. split; [done|by left].
Qed.


Example stuck_matched :
  List.filter (located Scenario.stuck_delete
                 (index_of ["lib"] Scenario.stuck_delete))
    (walked (tree Scenario.stuck_delete) "cam")
  = ["cam/1"; "cam/2"].
Proof. vm_compute. reflexivity. Qed.

Example stuck_returns :
  (Absent.main "cam" ["lib"] true Scenario.stuck_delete).1 = Ok tt.
Proof. vm_compute. reflexivity. Qed.

Lemma rmdups_after_resolution_witness :
  print_like Os.print
  ∧ coherent Scenario.stuck_delete
  ∧ ∃ w3 (t : list event),
      AbsentOut.main Os.print "cam" ["lib"] true Scenario.stuck_delete
      = (Ok tt, w3)
      ∧ removals t = ["cam/1"; "cam/2"]
      ∧ fs w3 !! "cam/2" = None
      ∧ fs w3 !! "cam/1" = fs Scenario.stuck_delete !! "cam/1"
      ∧ deletion_error "cam/1" (PermissionError "cam/1") ∈ t.
Proof.
  assert (Hpr : print_like Os.print) by (intros args w; by left).
  assert (Hc : coherent Scenario.stuck_delete).
  { apply (bool_decide_unpack _). vm_compute. exact I. }
  split; [exact Hpr|]. split; [exact Hc|].
  destruct (rmdups_after_resolution Os.print "cam" ["lib"]
              Scenario.stuck_delete Hpr Hc)
    as (r & w3 & t1 & t2 & Hmain & _ & _ & _ & _ & _ & Hcase).
  rewrite stuck_matched in Hcase.
  pose proof (f_equal fst Hmain) as Hr. cbn [fst] in Hr.
  rewrite main_on_print, stuck_returns in Hr. subst r.
  destruct Hcase as (Hrem & Hout & _).
  exists w3, t2. split; [exact Hmain|]. split; [exact Hrem|].
  assert (H1 : "cam/1" ∈ ["cam/1"; "cam/2"]) by by left.
  assert (H2 : "cam/2" ∈ ["cam/1"; "cam/2"]) by (right; by left).
  pose proof (Hout "cam/1" H1) as Hp1. pose proof (Hout "cam/2" H2) as Hp2.
  cbn in Hp1, Hp2. destruct Hp1 as [Hk He]. by split; [|split].
Defined.

(** A run of it: [cam/1] cannot be unlinked, which is reported, and
    [cam/2] is unlinked all the same. *)
Example rmdups_goes_on_after_a_failure :
  let out := Absent.main "cam" ["lib"] true Scenario.stuck_delete in
  out.1 = Ok tt
  ∧ removals (trace out.2) = ["cam/1"; "cam/2"]
  ∧ deletion_error "cam/1" (PermissionError "cam/1") ∈ trace out.2
  ∧ is_Some (fs out.2 !! "cam/1")
  ∧ fs out.2 !! "cam/2" = None.
Proof.
  intros out. repeat split.
  - apply list_elem_of_In. vm_compute.
    repeat (first [left; reflexivity | right]).
  - vm_compute. by eexists.
Qed.

(** ** A candidate that is its own library copy *)

(** A candidate that heads its own bucket is matched with itself. *)
Lemma locate_finds_itself tgt survey w st l :
  coherent w →
  Os.stat_fs (fs w) tgt = Ok st →
  survey !! st_size st = Some (tgt :: l) →
  readable (fs w) tgt →
  Filecmp.S_IFMT (st_mode st) = Filecmp.S_IFREG →
  (Absent.locate tgt survey w).1 = Ok (Some tgt).
Proof.
  intros Hc Hst Hb Hr Hreg.
  destruct (locate_run tgt survey w Hc) as (c' & t & -> & _). simpl.
  unfold locate_fs. rewrite Hst, Hb. simpl.
  assert (Hid : identical (fs w) tgt tgt).
  { destruct Hr as [d (f & Hf & Hs & _ & _)%read_ok_inv].
    exists (f_data f). unfold content. rewrite Hf.
    unfold Os.stat_fs in Hst. rewrite Hf, Hs in Hst.
    injection Hst as <-. simpl in Hreg. by rewrite Hreg, Z.eqb_refl. }
  by rewrite !(cmp_fs_identical _ _ _ _ Hid Hr Hr).
Qed.

(** C10: there are inputs, with the camera root inside the library roots,
    on which the candidate's own path is in its length bucket, [locate]
    returns that very path, and [main] with [rmdups] then removes the
    file: here the only copy of the photo is gone after the run. *)
Theorem overlap_deletes_only_copy :
  ∃ w camera libs tgt,
    tgt ∈ walked (tree w) camera
    ∧ tgt ∈ walked_all (tree w) libs
    ∧ (∃ survey w1,
         Absent.survey_library libs w = (Ok survey, w1)
         ∧ survey !! 5 = Some [tgt]
         ∧ (Absent.locate tgt survey w1).1 = Ok (Some tgt))
    ∧ is_Some (fs w !! tgt)
    ∧ ∃ w', Absent.main camera libs true w = (Ok tt, w')
            ∧ removals (trace w') = [tgt]
            ∧ fs w' = ∅.
Proof.
  exists Scenario.overlap, "pics", ["pics"], "pics/a.jpg".
  split; [apply list_elem_of_In; vm_compute; by left|].
  split; [apply list_elem_of_In; vm_compute; by left|].
  split.
  { eexists _, _. split; [vm_compute; reflexivity|].
    split; by vm_compute. }
  split; [by eexists|].
  eexists. split; [vm_compute; reflexivity|]. split; by vm_compute.
Qed.

(** ** Where the code departs from the specification *)

Lemma locate_stat_failure tgt survey w e :
  Os.stat_fs (fs w) tgt = Raise e →
  Absent.locate tgt survey w = (Raise e, add_trace w [EvStat tgt]).
Proof. intros Hst. unfold Absent.locate, io_bind. by rewrite stat_run, Hst. Qed.

Lemma scan_file_stat_failure surveyed i_path fname s w e :
  Os.stat_fs (fs w) (fpath_of i_path fname) = Raise e →
  Absent.scan_file surveyed i_path fname s w
  = (Raise e, add_trace w [EvStat (fpath_of i_path fname)]).
Proof.
  intros Hst. unfold Absent.scan_file, io_bind. fold (fpath_of i_path fname).
  by rewrite (locate_stat_failure _ _ _ _ Hst).
Qed.

(** C1 fails on the code: the camera lists [gone.jpg] and [new.jpg], and
    [cam/gone.jpg] cannot be stat-ed.  The [FileNotFoundError] of [locate]
    is caught nowhere: [main] ends with it, prints no warning for the
    file, and never looks at [cam/new.jpg]. *)
Theorem vanished_candidate_aborts_run :
  Absent.main "cam" ["lib"] false Scenario.vanished_candidate
  = (Raise (FileNotFoundError "cam/gone.jpg"),
     add_trace Scenario.vanished_candidate
       [EvWalk "lib"; EvStat "lib/A";
        EvPrint [PStr "nFiles:"; PInt 1];
        EvPrint [PStr "nLengths:"; PInt 1];
        EvPrint [PStr "Lengths with more than 1 file:"; PInt 0];
        EvWalk "cam"; EvStat "cam/gone.jpg"]).
Proof. vm_compute. reflexivity. Qed.

(** C2 fails on the code: the index of [collision] lists [lib/A] and
    [lib/B]; once [lib/A] has been deleted, resolving [cam/C] raises the
    [FileNotFoundError] of [filecmp.cmp] on [lib/A], without a warning and
    without ever comparing with [lib/B], which has the candidate's
    bytes. *)
Theorem vanished_record_aborts_locate :
  (Absent.survey_library ["lib"] Scenario.collision).1
    = Ok Scenario.collision_index
  ∧ Absent.locate "cam/C" Scenario.collision_index Scenario.vanished_record
    = (Raise (FileNotFoundError "lib/A"),
       add_trace Scenario.vanished_record
         [EvStat "cam/C"; EvCmp "cam/C" "lib/A" true])
  ∧ identical (fs Scenario.vanished_record) "cam/C" "lib/B".
Proof.
  split; [vm_compute; reflexivity|].
  split; [vm_compute; reflexivity|].
  by exists "bbbbbbbbbb".
Qed.

(** * Further properties of the program *)

(** ** What [locate] returns, for any index *)

Lemma locate_loop_fs_first m tgt l p :
  locate_loop_fs m tgt l = Ok (Some p) →
  ∃ l1 l2, l = l1 ++ p :: l2
    ∧ Forall (λ q, ¬ identical m tgt q) l1 ∧ identical m tgt p.
Proof.
  induction l as [|q l IH]; simpl; [done|].
  assert (Hskip : ∀ sh, cmp_fs m tgt q sh = Ok false →
            locate_loop_fs m tgt l = Ok (Some p) →
            ∃ l1 l2, q :: l = l1 ++ p :: l2
              ∧ Forall (λ q, ¬ identical m tgt q) l1 ∧ identical m tgt p).
  { intros sh Hq (l1 & l2 & -> & Hl1 & Hp)%IH.
    exists (q :: l1), l2. split; [done|]. split; [|done].
    constructor; [by eapply cmp_fs_false_distinct|done]. }
  destruct (cmp_fs m tgt q true) as [[]|] eqn:H1; [| |done].
  - destruct (cmp_fs m tgt q false) as [[]|] eqn:H2; [| |done].
    + intros [= <-]. exists [], l. split; [done|]. split; [constructor|].
      by apply cmp_fs_true_identical.
    + by apply (Hskip false).
  - by apply (Hskip true).
Qed.

(** X1: whatever index [locate] is given, consistent with the files or
    not, a path it returns is a record of the candidate's length bucket,
    is a regular file with the candidate's bytes, and is the first such
    record of the bucket. *)
Theorem locate_returns_first_copy tgt survey w p :
  coherent w →
  (Absent.locate tgt survey w).1 = Ok (Some p) →
  ∃ st l1 l2,
    Os.stat_fs (fs w) tgt = Ok st
    ∧ survey !! st_size st = Some (l1 ++ p :: l2)
    ∧ Forall (λ q, ¬ identical (fs w) tgt q) l1
    ∧ identical (fs w) tgt p.
Proof.
  intros Hc. destruct (locate_run tgt survey w Hc) as (c' & t & -> & _).
  simpl. unfold locate_fs.
  destruct (Os.stat_fs (fs w) tgt) as [st|e]; [|done].
  intros (l1 & l2 & Hb & Hl1 & Hp)%locate_loop_fs_first.
  exists st, l1, l2. split; [done|]. split; [|done].
  destruct (survey !! st_size st) as [l|]; simpl in Hb; [by subst|].
  by destruct l1.
Qed.

Example collision_locate_direct :
  (Absent.locate "cam/C" Scenario.collision_index Scenario.collision).1
  = Ok (Some "lib/B").
Proof. vm_compute. reflexivity. Qed.

Lemma locate_returns_first_copy_witness :
  ∃ st l1 l2,
    Os.stat_fs (fs Scenario.collision) "cam/C" = Ok st
    ∧ Scenario.collision_index !! st_size st = Some (l1 ++ "lib/B" :: l2)
    ∧ Forall (λ q, ¬ identical (fs Scenario.collision) "cam/C" q) l1
    ∧ identical (fs Scenario.collision) "cam/C" "lib/B".
Proof.
  apply (locate_returns_first_copy "cam/C" Scenario.collision_index
           Scenario.collision "lib/B").
  - apply (bool_decide_unpack _). vm_compute. exact I.
  - exact collision_locate_direct.
Defined.

(** ** The shallow comparison is an optimisation only *)

Lemma cmp_fs_shallow_false m a b :
  cmp_fs m a b true = Ok false → cmp_fs m a b false = Ok false.
Proof.
  unfold cmp_fs.
  destruct (Os.stat_fs m a) as [st1|]; [|done].
  destruct (Os.stat_fs m b) as [st2|]; [|done].
  destruct (negb _ || negb _)%bool; [done|]. simpl.
  by destruct (bool_decide _).
Qed.

Lemma cmp_fs_shallow_raise m a b e :
  cmp_fs m a b true = Raise e → cmp_fs m a b false = Raise e.
Proof.
  unfold cmp_fs.
  destruct (Os.stat_fs m a) as [st1|]; [|done].
  destruct (Os.stat_fs m b) as [st2|]; [|done].
  destruct (negb _ || negb _)%bool; [done|]. simpl.
  by destruct (bool_decide _).
Qed.

Lemma locate_loop_fs_full m tgt l :
  locate_loop_fs m tgt l = first_identical_fs m tgt l.
Proof.
  induction l as [|q l IH]; simpl; [done|].
  destruct (cmp_fs m tgt q true) as [[]|e] eqn:H1.
  - by rewrite IH.
  - by rewrite (cmp_fs_shallow_false _ _ _ H1).
  - by rewrite (cmp_fs_shallow_raise _ _ _ _ H1).
Qed.

(** X2: [locate] answers exactly as a scan of the bucket that uses the
    full comparison alone would: the same path, the same [None], the
    same exception.  The shallow call before each full comparison never
    makes it skip a record that the full comparison would accept. *)
Theorem locate_shallow_check_is_transparent tgt survey w :
  coherent w →
  (Absent.locate tgt survey w).1
  = match Os.stat_fs (fs w) tgt with
    | Raise e => Raise e
    | Ok st =>
        first_identical_fs (fs w) tgt (default [] (survey !! st_size st))
    end.
Proof.
  intros Hc. destruct (locate_run tgt survey w Hc) as (c' & t & -> & _).
  simpl. unfold locate_fs.
  destruct (Os.stat_fs (fs w) tgt) as [st|e]; [|done].
  apply locate_loop_fs_full.
Qed.

Lemma locate_shallow_check_is_transparent_witness :
  (Absent.locate "cam/C" Scenario.collision_index Scenario.collision).1
  = first_identical_fs (fs Scenario.collision) "cam/C" ["lib/A"; "lib/B"].
Proof.
  apply (locate_shallow_check_is_transparent "cam/C"
           Scenario.collision_index Scenario.collision).
  apply (bool_decide_unpack _). vm_compute. exact I.
Defined.

(** ** What [locate] and [main] never do *)

(** X3: from any state, [locate] changes no file and no directory
    listing; it stats the candidate once and after that only calls
    [filecmp.cmp] with the candidate as first file: it never walks,
    removes or prints. *)
Theorem locate_only_probes_candidate tgt survey w :
  ∃ c' t,
    (Absent.locate tgt survey w).2
    = World (fs w) (tree w) c' (trace w ++ EvStat tgt :: t)
    ∧ forallb (is_cmp_of tgt) t = true.
Proof.
  unfold Absent.locate, io_bind. rewrite stat_run.
  destruct (Os.stat_fs (fs w) tgt) as [st|e]; [|by exists (cache w), []].
  assert (Hloop : frames (is_cmp_of tgt)
            (Absent.locate_loop tgt (default [] (survey !! st_size st)))).
  { apply frames_locate_loop. intros q sh. simpl. apply String.eqb_refl. }
  destruct (Hloop (add_trace w [EvStat tgt])) as (c' & t & Hw & Ht).
  exists c', t. split; [|done].
  destruct (default [] (survey !! st_size st)) as [|q l].
  - simpl in Hw. simpl. rewrite Hw. simpl. by rewrite <- app_assoc.
  - rewrite Hw. simpl. by rewrite <- app_assoc.
Qed.

Lemma frames_stat P p : P (EvStat p) = true → frames P (Os.stat p).
Proof.
  intros HP. unfold Os.stat.
  apply frames_bind; [by apply frames_log|intros _; apply frames_lift].
Qed.

Lemma frames_walk P top : P (EvWalk top) = true → frames P (Os.walk top).
Proof.
  intros HP. unfold Os.walk.
  apply frames_bind; [by apply frames_log|intros _; apply frames_lift].
Qed.

Lemma frames_survey_library folders :
  frames not_remove (Absent.survey_library folders).
Proof.
  unfold Absent.survey_library.
  apply frames_bind.
  - apply frames_for_in. intros folder st. unfold Absent.survey_folder.
    apply frames_bind; [by apply frames_walk|intros entries].
    apply frames_for_in. intros entry st'. unfold Absent.survey_dir.
    apply frames_for_in. intros fname st''. unfold Absent.survey_file.
    apply frames_bind; [|intros res; apply frames_ret].
    apply frames_try_except.
    + apply frames_bind; [by apply frames_stat|intros st_; apply frames_ret].
    + intros e. apply frames_bind; [by apply frames_log|].
      intros _. apply frames_ret.
  - intros st. repeat (apply frames_bind; [by apply frames_log|intros _]).
    apply frames_ret.
Qed.

Lemma frames_report s : frames not_remove (Absent.report s).
Proof.
  unfold Absent.report.
  apply frames_bind; [by apply frames_log|intros _].
  apply frames_bind; [|intros _; by apply frames_log].
  apply frames_for_in. intros p []. by apply frames_log.
Qed.

(** X4: without [rmdups], whatever happens (the run may end with an
    exception), [main] leaves every file and listing as it was and never
    calls [os.remove]. *)
Theorem main_without_rmdups_is_read_only camera libs w :
  let out := Absent.main camera libs false w in
  fs out.2 = fs w ∧ tree out.2 = tree w
  ∧ ∃ t, trace out.2 = trace w ++ t ∧ removals t = [].
Proof.
  assert (Hmain : frames not_remove (Absent.main camera libs false)).
  { unfold Absent.main.
    apply frames_bind; [apply frames_survey_library|intros surveyed].
    apply frames_bind; [apply frames_resolve_all|intros s].
    apply frames_bind; [apply frames_report|intros _; apply frames_ret]. }
  destruct (Hmain w) as (c' & t & Hw & Ht). simpl. rewrite Hw. simpl.
  split; [done|]. split; [done|]. exists t. split; [done|].
  by apply removals_not_remove.
Qed.

(** ** What [rmdups] removes *)

Lemma matched_has_copy m surveyed p :
  matched m surveyed p = true →
  ∃ q, indexed surveyed q ∧ identical m p q.
Proof.
  unfold matched, locate_fs.
  destruct (Os.stat_fs m p) as [st|e]; [|done].
  destruct (locate_loop_fs m p (default [] (surveyed !! st_size st)))
    as [[q|]|e] eqn:Hl; [|done|done].
  intros _. apply locate_loop_fs_some in Hl as [Hq Hid].
  exists q. split; [by eapply bucket_indexed|done].
Qed.

(** X5: with [rmdups], every path handed to [os.remove] is a path
    visited under the camera folder, and at the start of the run some
    file recorded in the library index was a regular file with exactly
    its bytes.  No other path is ever removed. *)
Theorem rmdups_removes_only_copies camera libs w :
  coherent w →
  ∃ surveyed t,
    (Absent.survey_library libs w).1 = Ok surveyed
    ∧ trace (Absent.main camera libs true w).2 = trace w ++ t
    ∧ ∀ p, p ∈ removals t →
        p ∈ walked (tree w) camera
        ∧ ∃ q, indexed surveyed q ∧ identical (fs w) p q.
Proof.
  intros Hc. pose proof (survey_library_run libs w) as Hrun. simpl in Hrun.
  set (res := foldl _ _ _) in Hrun. set (tsurvey := _ ++ _) in Hrun.
  exists res. unfold Absent.main, io_bind. rewrite Hrun. simpl.
  assert (Hsurvey : removals tsurvey = []).
  { unfold tsurvey. by rewrite removals_app, survey_events_no_removal. }
  assert (Hc1 : coherent (add_trace w tsurvey)) by exact Hc.
  destruct (frames_resolve_all camera res (add_trace w tsurvey))
    as (c2 & t2 & Hw2 & Ht2).
  destruct (Absent.resolve_all camera res (add_trace w tsurvey))
    as [[s|e] w2] eqn:Hres; simpl in Hw2; subst w2.
  - rewrite report_run.
    destruct (delete_loop_run (Absent.not_needed s)
                (add_trace (World (fs w) (tree w) c2 ((trace w ++ tsurvey) ++ t2))
                   (report_events s)))
      as (w3 & t & -> & Htr & _ & Hr & _).
    exists (tsurvey ++ t2 ++ report_events s ++ t). split; [done|]. split.
    { cbn [snd]. rewrite Htr. unfold add_trace. cbn [trace].
      by rewrite <- !app_assoc. }
    intros p. rewrite !removals_app, Hsurvey, (removals_not_remove _ Ht2),
      report_no_removal, Hr. simpl.
    rewrite (proj1 (resolve_all_partition _ _ _ _ _ Hc1 Hres)).
    intros [Hp Hm]%list_elem_of_In%filter_In.
    split; [by apply list_elem_of_In|]. by apply matched_has_copy.
  - exists (tsurvey ++ t2). split; [done|]. split.
    { simpl. by rewrite <- app_assoc. }
    intros p. rewrite removals_app, Hsurvey, (removals_not_remove _ Ht2).
    by intros ?%elem_of_nil.
Qed.

Lemma rmdups_removes_only_copies_witness :
  ∃ surveyed t,
    (Absent.survey_library ["lib"] Scenario.stuck_delete).1 = Ok surveyed
    ∧ trace (Absent.main "cam" ["lib"] true Scenario.stuck_delete).2
      = trace Scenario.stuck_delete ++ t
    ∧ ∀ p, p ∈ removals t →
        p ∈ walked (tree Scenario.stuck_delete) "cam"
        ∧ ∃ q, indexed surveyed q ∧ identical (fs Scenario.stuck_delete) p q.
Proof.
  apply (rmdups_removes_only_copies "cam" ["lib"] Scenario.stuck_delete).
  apply (bool_decide_unpack _). vm_compute. exact I.
Defined.

(** ** The two lists of [main] *)

Lemma filter_split_perm {A} (f : A → bool) (l : list A) :
  List.filter (λ x, negb (f x)) l ++ List.filter f l ≡ₚ l.
Proof.
  induction l as [|x l IH]; simpl; [done|].
  destruct (f x); simpl.
  - by rewrite <- Permutation_middle, IH.
  - by rewrite IH.
Qed.

(** X6: when the scan of the camera folder returns, every visited path
    has been put in exactly one of the two lists, as many times as it
    was visited: [absent] and [not_needed] together are a rearrangement
    of the visited paths, no path is in both, and the counter is the
    number of visited paths, the sum of the two lengths. *)
Theorem scan_splits_candidates camera surveyed w s :
  coherent w →
  (Absent.resolve_all camera surveyed w).1 = Ok s →
  Absent.absent s ++ Absent.not_needed s ≡ₚ walked (tree w) camera
  ∧ (∀ p, p ∈ Absent.absent s → p ∉ Absent.not_needed s)
  ∧ Absent.cnt s = Z.of_nat (length (walked (tree w) camera))
  ∧ Absent.cnt s
    = Z.of_nat (length (Absent.absent s))
      + Z.of_nat (length (Absent.not_needed s)).
Proof.
  intros Hc Hs.
  destruct (Absent.resolve_all camera surveyed w) as [r w2] eqn:Hres.
  simpl in Hs. subst r.
  destruct (resolve_all_partition _ _ _ _ _ Hc Hres) as (HN & HA & HC).
  assert (Hperm : Absent.absent s ++ Absent.not_needed s
                  ≡ₚ walked (tree w) camera).
  { rewrite HN, HA. apply filter_split_perm. }
  split; [done|]. split; [|split; [done|]].
  - intros p. rewrite HA, HN, !list_elem_of_In, !filter_In.
    unfold unmatched. intros [_ Hu] [_ Hm]. by rewrite Hm in Hu.
  - rewrite HC, <- Hperm, length_app. lia.
Qed.

Example ghost_resolve :
  (Absent.resolve_all "cam" MoreScenario.ghost_index MoreScenario.ghost).1
  = Ok (Absent.Scan ["cam/new"] ["cam/old"] 2).
Proof. vm_compute. reflexivity. Qed.

Lemma scan_splits_candidates_witness :
  ["cam/new"] ++ ["cam/old"] ≡ₚ walked (tree MoreScenario.ghost) "cam".
Proof.
  assert (Hc : coherent MoreScenario.ghost).
  { apply (bool_decide_unpack _). vm_compute. exact I. }
  exact (proj1 (scan_splits_candidates "cam" MoreScenario.ghost_index
                  MoreScenario.ghost _ Hc ghost_resolve)).
Defined.

(** ** The scan classifies by content *)

Lemma for_in_invariant {A S} (body : A → S → io S) (items : A → list string)
    (R : list string → Prop) m tr :
  R [] → (∀ ps1 ps2, R ps1 → R ps2 → R (ps1 ++ ps2)) →
  (∀ x s w s' w', coherent w → fs w = m → tree w = tr →
     body x s w = (Ok s', w') →
     R (items x) ∧ coherent w' ∧ fs w' = m ∧ tree w' = tr) →
  ∀ l s w s' w', coherent w → fs w = m → tree w = tr →
    for_in l body s w = (Ok s', w') →
    R (flat_map items l) ∧ coherent w' ∧ fs w' = m ∧ tree w' = tr.
Proof.
  intros Hnil Happ Hbody l.
  induction l as [|x l IH]; intros s w s' w' Hc Hm Ht; simpl.
  - unfold io_ret. by intros [= <- <-].
  - unfold io_bind.
    destruct (body x s w) as [[s1|e] w1] eqn:Hx; [|done].
    destruct (Hbody _ _ _ _ _ Hc Hm Ht Hx) as (HR1 & Hc1 & Hm1 & Ht1).
    intros Hl. destruct (IH _ _ _ _ Hc1 Hm1 Ht1 Hl) as (HR2 & Hc2 & Hm2 & Ht2).
    split; [by apply Happ|done].
Qed.

(** When the scan returns, [locate] has returned for every visited
    path. *)
Lemma resolve_all_answers camera surveyed w s w2 :
  coherent w →
  Absent.resolve_all camera surveyed w = (Ok s, w2) →
  Forall (answered (fs w) surveyed) (walked (tree w) camera).
Proof.
  intros Hc. unfold Absent.resolve_all, io_bind. rewrite walk_run.
  intros Hrun.
  assert (Hc1 : coherent (add_trace w [EvWalk camera])) by exact Hc.
  eapply (for_in_invariant _ dir_paths (Forall (answered (fs w) surveyed))
            (fs w) (tree w)) in Hrun;
    [by destruct Hrun|done|by intros; apply Forall_app|clear Hrun
    |exact Hc1|done|done].
  intros entry s0 w0 s0' w0' Hc0 Hm0 Ht0 Hdir. unfold Absent.scan_dir in Hdir.
  eapply (for_in_invariant _ (λ b, [fpath_of entry.1 b])
            (Forall (answered (fs w) surveyed)) (fs w) (tree w)) in Hdir;
    [|done|by intros; apply Forall_app|clear Hdir|exact Hc0|done|done].
  - unfold dir_paths. by rewrite flat_map_singleton in Hdir.
  - intros b s1 w1 s1' w1' Hc1' Hm1 Ht1.
    unfold Absent.scan_file, io_bind. fold (fpath_of entry.1 b).
    destruct (locate_run (fpath_of entry.1 b) surveyed w1 Hc1')
      as (c' & t & -> & Hc' & _). rewrite Hm1, Ht1. rewrite Hm1 in Hc'.
    destruct (locate_fs (fs w) (fpath_of entry.1 b) surveyed)
      as [found|e] eqn:Hf; [|done].
    intros Hrest. split; [constructor; [by exists found|constructor]|].
    destruct (Absent.found_truthy found); simpl in Hrest;
      unfold io_ret in Hrest; injection Hrest as _ <-;
      (split; [exact Hc'|done]).
Qed.

Lemma index_none_no_copy m ps tgt :
  locate_fs m tgt (foldl (index_step m) ∅ ps) = Ok None →
  ∀ q, indexed (foldl (index_step m) ∅ ps) q → ¬ identical m tgt q.
Proof.
  unfold locate_fs. destruct (Os.stat_fs m tgt) as [st|e] eqn:Hst; [|done].
  intros Hl q (n & l & Hn & Hq) Hid.
  destruct (index_sound _ _ _ _ _ Hn Hq) as [_ Hs].
  apply has_size_stat in Hs as (sq & Hsq & <-).
  rewrite (identical_same_size _ _ _ _ _ Hid Hst Hsq), Hn in Hl.
  by apply (locate_loop_fs_none _ _ _ Hl q).
Qed.

(** X7: let no visited library path be the empty string.  When index
    build and scan return, a visited camera path is in [not_needed]
    if and only if some file of the index is a regular file with exactly
    its bytes, and in [absent] if and only if none is. *)
Theorem scan_classifies_by_content camera libs w surveyed s :
  coherent w →
  forallb PyStr.truthy (walked_all (tree w) libs) = true →
  (Absent.survey_library libs w).1 = Ok surveyed →
  (Absent.resolve_all camera surveyed (Absent.survey_library libs w).2).1
    = Ok s →
  ∀ p, p ∈ walked (tree w) camera →
    (p ∈ Absent.not_needed s
       ↔ ∃ q, indexed surveyed q ∧ identical (fs w) p q)
    ∧ (p ∈ Absent.absent s
       ↔ ¬ ∃ q, indexed surveyed q ∧ identical (fs w) p q).
Proof.
  intros Hc Hnames. pose proof (survey_library_run libs w) as Hrun.
  simpl in Hrun. rewrite Hrun. cbn [fst snd].
  set (ps := walked_all (tree w) libs) in *.
  set (res := foldl _ _ _). set (w1 := add_trace w _).
  intros [= <-] Hs.
  destruct (Absent.resolve_all camera res w1) as [r w2] eqn:Hres.
  simpl in Hs. subst r.
  assert (Hc1 : coherent w1) by exact Hc.
  destruct (resolve_all_partition _ _ _ _ _ Hc1 Hres) as (HN & HA & _).
  pose proof (resolve_all_answers _ _ _ _ _ Hc1 Hres) as Hans.
  change (fs w1) with (fs w) in *. change (tree w1) with (tree w) in *.
  intros p Hp.
  assert (Hkey : matched (fs w) res p = true
                 ↔ ∃ q, indexed res q ∧ identical (fs w) p q).
  { split; [apply matched_has_copy|].
    intros Hcopy. rewrite Forall_forall in Hans.
    destruct (Hans p Hp) as [found Hf]. unfold matched. rewrite Hf.
    destruct found as [q|].
    - unfold locate_fs in Hf.
      destruct (Os.stat_fs (fs w) p) as [st|]; [|done].
      apply locate_loop_fs_some in Hf as [Hq _].
      apply bucket_indexed in Hq as (n & l & Hn & Hq).
      destruct (index_sound _ _ _ _ _ Hn Hq) as [Hin _].
      rewrite forallb_forall in Hnames. apply Hnames.
      by apply list_elem_of_In.
    - exfalso. destruct Hcopy as (q & Hq & Hid).
      by apply (index_none_no_copy _ _ _ Hf q). }
  rewrite HN, HA, !list_elem_of_In, !filter_In, <- !list_elem_of_In.
  unfold unmatched. split.
  - rewrite <- Hkey. by split; [intros [_ ?]|].
  - rewrite <- Hkey. destruct (matched (fs w) res p); split.
    + by intros [_ ?].
    + by intros [].
    + by intros _ ?.
    + by intros _.
Qed.

Example ghost_survey :
  (Absent.survey_library ["lib"] MoreScenario.ghost).1
  = Ok MoreScenario.ghost_index.
Proof. vm_compute. reflexivity. Qed.

Example ghost_scan :
  (Absent.resolve_all "cam" MoreScenario.ghost_index
     (Absent.survey_library ["lib"] MoreScenario.ghost).2).1
  = Ok (Absent.Scan ["cam/new"] ["cam/old"] 2).
Proof. vm_compute. reflexivity. Qed.

Lemma scan_classifies_by_content_witness :
  ∃ q, indexed MoreScenario.ghost_index q
       ∧ identical (fs MoreScenario.ghost) "cam/old" q.
Proof.
  assert (Hc : coherent MoreScenario.ghost).
  { apply (bool_decide_unpack _). vm_compute. exact I. }
  assert (Hn : forallb PyStr.truthy
                 (walked_all (tree MoreScenario.ghost) ["lib"]) = true)
    by reflexivity.
  assert (Hp : "cam/old" ∈ walked (tree MoreScenario.ghost) "cam").
  { apply list_elem_of_In. vm_compute. by left. }
  apply (scan_classifies_by_content "cam" ["lib"] MoreScenario.ghost
           _ _ Hc Hn ghost_survey ghost_scan "cam/old" Hp).
  apply list_elem_of_In. simpl. by left.
Defined.

(** ** The report *)







(** ** More on the index *)

(** X9: in the index [survey_library] returns, a recorded path is a
    visited path whose [os.stat] gives the length that keys its bucket;
    hence no path is recorded under two different lengths. *)
Theorem index_buckets_hold_their_length folders w res :
  (Absent.survey_library folders w).1 = Ok res →
  ∀ n l p, res !! n = Some l → p ∈ l →
    p ∈ walked_all (tree w) folders
    ∧ (∃ st, Os.stat_fs (fs w) p = Ok st ∧ st_size st = n)
    ∧ (∀ n' l', res !! n' = Some l' → p ∈ l' → n' = n).
Proof.
  pose proof (survey_library_run folders w) as Hrun. simpl in Hrun.
  rewrite Hrun. cbn [fst]. intros [= <-] n l p Hn Hp.
  destruct (index_sound _ _ _ _ _ Hn Hp) as [Hin Hs].
  apply has_size_stat in Hs as (st & Hst & Hsz).
  split; [done|]. split; [by exists st|].
  intros n' l' Hn' Hp'.
  destruct (index_sound _ _ _ _ _ Hn' Hp') as [_ Hs'].
  apply has_size_stat in Hs' as (st' & Hst' & Hsz'). congruence.
Qed.

Lemma index_buckets_hold_their_length_witness :
  "lib/A" ∈ walked_all (tree MoreScenario.ghost) ["lib"]
  ∧ ∃ st, Os.stat_fs (fs MoreScenario.ghost) "lib/A" = Ok st ∧ st_size st = 5.
Proof.
  assert (Hn : MoreScenario.ghost_index !! 5 = Some ["lib/A"]) by reflexivity.
  assert (Hp : "lib/A" ∈ ["lib/A"]) by by left.
  destruct (index_buckets_hold_their_length ["lib"] MoreScenario.ghost
              MoreScenario.ghost_index ghost_survey 5 ["lib/A"] "lib/A" Hn Hp)
    as (Hin & Hst & _).
  by split.
Defined.

Lemma records_comm (z1 z2 : list string) (y : nat) :
  (length z1 + (length z2 + y) = length z2 + (length z1 + y))%nat.
Proof. lia. Qed.

Lemma records_append res k p :
  records (Absent.setdefault_append res k p) = S (records res).
Proof.
  unfold records, Absent.setdefault_append.
  destruct (res !! k) as [l|] eqn:Hk; simpl.
  - rewrite <- insert_delete_eq.
    rewrite map_fold_insert_L;
      [|intros; apply records_comm|apply lookup_delete_eq].
    rewrite (map_fold_delete_L _ _ k l res);
      [|intros; apply records_comm|done].
    rewrite length_app. simpl. lia.
  - rewrite map_fold_insert_L; [done|intros; apply records_comm|done].
Qed.

Lemma records_index m ps res :
  records (foldl (index_step m) res ps)
  = (records res + length (List.filter (λ p, negb (stat_fails m p)) ps))%nat.
Proof.
  revert res. induction ps as [|p ps IH]; intros res; simpl; [lia|].
  rewrite IH. unfold index_step, stat_fails.
  destruct (Os.stat_fs m p) as [st|e]; simpl; [|done].
  rewrite records_append. lia.
Qed.

(** X10: every visited library file is accounted for once: the number of
    visited files (the count printed as "nFiles:") is the number of
    records in all buckets of the index plus the number of files whose
    [os.stat] failed. *)
Theorem survey_accounts_for_every_file folders w res :
  (Absent.survey_library folders w).1 = Ok res →
  length (walked_all (tree w) folders)
  = (records res
     + length (List.filter (stat_fails (fs w))
                 (walked_all (tree w) folders)))%nat.
Proof.
  pose proof (survey_library_run folders w) as Hrun. simpl in Hrun.
  rewrite Hrun. cbn [fst]. intros [= <-].
  rewrite records_index. unfold records at 1. rewrite map_fold_empty.
  rewrite <- (filter_split_perm (stat_fails (fs w))
                (walked_all (tree w) folders)) at 1.
  rewrite length_app. lia.
Qed.

Lemma survey_accounts_for_every_file_witness :
  length (walked_all (tree MoreScenario.ghost) ["lib"])
  = (records MoreScenario.ghost_index
     + length (List.filter (stat_fails (fs MoreScenario.ghost))
                 (walked_all (tree MoreScenario.ghost) ["lib"])))%nat.
Proof.
  exact (survey_accounts_for_every_file ["lib"] MoreScenario.ghost
           MoreScenario.ghost_index ghost_survey).
Defined.

Lemma replace_no_backslash s : no_backslash (PyStr.replace_backslash s) = true.
Proof.
  induction s as [|c s IH]; simpl; [done|]. rewrite IH.
  destruct (Ascii.eqb c PyStr.backslash) eqn:Hc; [done|]. by rewrite Hc.
Qed.

(** X11: no path recorded in the index contains a backslash: each one
    went through [replace('\\', '/')] before it was stat-ed and
    recorded. *)
Theorem indexed_paths_have_no_backslash folders w res p :
  (Absent.survey_library folders w).1 = Ok res →
  indexed res p → no_backslash p = true.
Proof.
  pose proof (survey_library_run folders w) as Hrun. simpl in Hrun.
  rewrite Hrun. cbn [fst]. intros [= <-] (n & l & Hn & Hp).
  destruct (index_sound _ _ _ _ _ Hn Hp) as [Hin _].
  apply list_elem_of_In in Hin. unfold walked_all, walked in Hin.
  apply in_flat_map in Hin as (top & _ & Hin).
  apply in_flat_map in Hin as (entry & _ & Hin).
  unfold dir_paths in Hin. apply in_map_iff in Hin as (b & <- & _).
  apply replace_no_backslash.
Qed.

Lemma indexed_paths_have_no_backslash_witness :
  no_backslash "lib/A" = true.
Proof.
  apply (indexed_paths_have_no_backslash ["lib"] MoreScenario.ghost
           MoreScenario.ghost_index "lib/A" ghost_survey).
  exists 5, ["lib/A"]. split; [reflexivity|]. by left.
Defined.

(** ** When the run cannot fail *)









(** ** A library that is not there *)

Lemma walked_all_nothing w libs :
  forallb (yields_nothing w) libs = true → walked_all (tree w) libs = [].
Proof.
  induction libs as [|top libs IH]; simpl; [done|].
  intros [Htop Hl]%andb_true_iff. unfold walked_all in *. simpl.
  rewrite (IH Hl), app_nil_r. unfold walked.
  apply bool_decide_eq_true_1 in Htop. by rewrite Htop.
Qed.

Lemma for_in_keeps {A S} (body : A → S → io S) (J : S → Prop) l :
  (∀ x s w s' w', J s → body x s w = (Ok s', w') → J s') →
  ∀ s w s' w', J s → for_in l body s w = (Ok s', w') → J s'.
Proof.
  intros Hbody. induction l as [|x l IH]; intros s w s' w' Hs; simpl.
  - unfold io_ret. by intros [= <- _].
  - unfold io_bind. destruct (body x s w) as [[s1|e] w1] eqn:Hx; [|done].
    apply IH. by eapply Hbody.
Qed.

Lemma scan_empty_index_matches_nothing camera w s w2 :
  Absent.resolve_all camera ∅ w = (Ok s, w2) → Absent.not_needed s = [].
Proof.
  unfold Absent.resolve_all, io_bind. rewrite walk_run.
  apply (for_in_keeps _ (λ s, Absent.not_needed s = [])); [|done].
  intros entry s0 w0 s0' w0' Hs0. unfold Absent.scan_dir.
  apply (for_in_keeps _ (λ s, Absent.not_needed s = [])); [|done].
  intros b s1 w1 s1' w1' Hs1.
  unfold Absent.scan_file, Absent.locate, io_bind. rewrite stat_run.
  destruct (Os.stat_fs (fs w1) _) as [st|e]; [|done].
  rewrite lookup_empty. simpl. unfold io_ret. by intros [= <- _].
Qed.

(** X13: if none of the library roots is a directory that [os.walk] can
    list, the index is empty and no candidate is matched: with or
    without [rmdups], [main] removes nothing and leaves every file as it
    was. *)
Theorem missing_library_matches_nothing camera libs rmdups w :
  forallb (yields_nothing w) libs = true →
  (Absent.survey_library libs w).1 = Ok ∅
  ∧ fs (Absent.main camera libs rmdups w).2 = fs w
  ∧ ∃ t, trace (Absent.main camera libs rmdups w).2 = trace w ++ t
         ∧ removals t = [].
Proof.
  intros Hlibs. pose proof (survey_library_run libs w) as Hrun.
  simpl in Hrun. rewrite (walked_all_nothing _ _ Hlibs) in Hrun.
  simpl in Hrun. set (tsurvey := _ ++ _) in Hrun.
  assert (Hsurvey : removals tsurvey = []).
  { unfold tsurvey. by rewrite removals_app, survey_events_no_removal. }
  split; [by rewrite Hrun|].
  unfold Absent.main, io_bind. rewrite Hrun.
  destruct (frames_resolve_all camera ∅ (add_trace w tsurvey))
    as (c2 & t2 & Hw2 & Ht2).
  destruct (Absent.resolve_all camera ∅ (add_trace w tsurvey))
    as [[s|e] w2] eqn:Hres; simpl in Hw2; subst w2.
  - rewrite report_run.
    rewrite (scan_empty_index_matches_nothing _ _ _ _ Hres).
    assert (Hend : (if rmdups then for_in [] Absent.delete_file tt
                    else io_ret tt) = io_ret tt) by by destruct rmdups.
    rewrite Hend. unfold io_ret, add_trace. cbn [snd fs trace].
    split; [done|]. exists (tsurvey ++ t2 ++ report_events s).
    split; [by rewrite <- !app_assoc|].
    by rewrite !removals_app, Hsurvey, (removals_not_remove _ Ht2),
      report_no_removal.
  - cbn [snd fs trace]. split; [done|]. exists (tsurvey ++ t2).
    split; [by rewrite <- app_assoc|].
    by rewrite removals_app, Hsurvey, (removals_not_remove _ Ht2).
Qed.

Lemma missing_library_matches_nothing_witness :
  fs (Absent.main "cam" ["nowhere"] true Scenario.collision).2
  = fs Scenario.collision.
Proof.
  apply (missing_library_matches_nothing "cam" ["nowhere"] true
           Scenario.collision).
  reflexivity.
Defined.

(** ** Several lists of roots *)

Lemma index_of_bucket folders w n :
  default [] (index_of folders w !! n)
  = List.filter (has_size (fs w) n) (walked_all (tree w) folders).
Proof.
  unfold index_of. pose proof (survey_library_run folders w) as Hrun.
  simpl in Hrun. rewrite Hrun. cbn [fst].
  by rewrite index_bucket, lookup_empty.
Qed.

(** X14: roots are neither merged nor deduplicated.  For every length,
    the bucket of the index built from the roots [f1] followed by the
    roots [f2] is the bucket built from [f1] followed by the bucket
    built from [f2]; so a root given twice records each of its files
    twice. *)
Theorem survey_of_appended_roots f1 f2 w n :
  default [] (index_of (f1 ++ f2) w !! n)
  = default [] (index_of f1 w !! n) ++ default [] (index_of f2 w !! n).
Proof.
  rewrite !index_of_bucket. unfold walked_all.
  by rewrite flat_map_app, List.filter_app.
Qed.
